(** * bitmap-manipulation: a shallow embedding of [bitmap.c]

    The development follows the C source function by function.  Machine
    integers are [Z] with their wrap-around written out, arrays are lists
    read and written by index ([!!] and [<[_:=_]>]), and a C operation whose
    behaviour is undefined (an access outside an array, a signed overflow)
    makes the embedded function return [None].  Messages printed on [stderr]
    are returned as values of type [diagnostic].

    Assumptions on the platform, as on x86-64 Linux with GCC, which the
    source targets ([__attribute__((packed))]): [int] is 32 bits, [long] and
    [size_t] are 64 bits, [char] is signed, memory is little-endian,
    [double] is IEEE-754 binary64 and [float] is binary32, both rounded to
    nearest-even and evaluated without excess precision.  Allocation
    ([malloc], [calloc]) is taken to succeed. *)

From Stdlib Require Import ZArith Lia ZifyNat Floats Uint63.
From stdpp Require Import base tactics option list numbers.

#[local] Open Scope Z_scope.
#[local] Set Warnings "-inexact-float".

(** ** Machine integers *)

Definition uint8 (x : Z) : Z := x mod 2 ^ 8.
Definition uint16 (x : Z) : Z := x mod 2 ^ 16.
Definition uint32 (x : Z) : Z := x mod 2 ^ 32.
Definition uint64 (x : Z) : Z := x mod 2 ^ 64.

Definition INT_MAX : Z := 2 ^ 31 - 1.
Definition INT_MIN : Z := - 2 ^ 31.

(** A signed [int] result: [None] when it does not fit (undefined in C). *)
Definition int_checked (x : Z) : option Z :=
  if (INT_MIN <=? x) && (x <=? INT_MAX) then Some x else None.

(** Conversion to a (signed) [char]. *)
Definition to_char (x : Z) : Z := (x + 128) mod 256 - 128.

Definition CHAR_BIT : Z := 8.
Definition STEG_LEN : Z := 32.

(** ** Data model ([bitmap.h]) *)

Record Cie_xyz := mkCie_xyz { cie_x : Z; cie_y : Z; cie_z : Z }.

Record Cie_xyz_triple := mkCie_xyz_triple
  { xyz_r : Cie_xyz; xyz_g : Cie_xyz; xyz_b : Cie_xyz }.

Record Bmp_header := mkBmp_header
  { header_size : Z;
    width : Z;
    height : Z;
    color_planes : Z;
    bit_per_pixel : Z;
    compression_type : Z;
    image_size : Z;
    h_resolution : Z;
    v_resolution : Z;
    color_no : Z;
    important_color_no : Z;
    red_mask : Z;
    green_mask : Z;
    blue_mask : Z;
    alpha_mask : Z;
    cs_type : Z;
    endpoints : Cie_xyz_triple;
    gamma_red : Z;
    gamma_green : Z;
    gamma_blue : Z;
    intent : Z;
    profile_data : Z;
    profile_size : Z;
    reserved : Z }.

(** A palette entry [(B, G, R, ZERO)]. *)
Record Color := mkColor { col_b : Z; col_g : Z; col_r : Z; col_a : Z }.

(** The pixel of the source is [{b; g; r; i}], four [uint8_t] in this
    order; the fields carry a prefix here because [i] is also the row
    index of every loop. *)
Record Pixel := mkPixel { px_b : Z; px_g : Z; px_r : Z; px_i : Z }.

(** [pixel_data] is a jagged array; a [NULL] pointer is the empty list,
    every access to which is out of bounds. *)
Record Image := mkImage
  { bmp_header : Bmp_header;
    pixel_data : list (list Pixel);
    palette : list Color }.

(** Channel indices of [bitmap.h]. *)
Module Channel.
Definition B : Z := 0.
Definition G : Z := 1.
Definition R : Z := 2.
Definition A : Z := 3.
Definition Y : Z := 0.
Definition Cb : Z := 1.
Definition Cr : Z := 2.
End Channel.

(** The packed pixel read as an array of four bytes, as the source does
    through a cast to a byte pointer: [px[channel]]. *)
Definition get_channel (p : Pixel) (channel : Z) : option Z :=
  if channel =? 0 then Some (px_b p)
  else if channel =? 1 then Some (px_g p)
  else if channel =? 2 then Some (px_r p)
  else if channel =? 3 then Some (px_i p)
  else None.

Definition set_channel (p : Pixel) (channel : Z) (v : Z) : option Pixel :=
  if channel =? 0 then Some (mkPixel v (px_g p) (px_r p) (px_i p))
  else if channel =? 1 then Some (mkPixel (px_b p) v (px_r p) (px_i p))
  else if channel =? 2 then Some (mkPixel (px_b p) (px_g p) v (px_i p))
  else if channel =? 3 then Some (mkPixel (px_b p) (px_g p) (px_r p) v)
  else None.

(** [pixel_data[i][j]] read and written; [None] outside the arrays. *)
Definition get_px (grid : list (list Pixel)) (i j : nat) : option Pixel :=
  row ← grid !! i; row !! j.

Definition set_px (grid : list (list Pixel)) (i j : nat) (p : Pixel)
  : option (list (list Pixel)) :=
  row ← grid !! i;
  if decide (j < length row)%nat then Some (<[i := <[j := p]> row]> grid)
  else None.

(** Messages written on [stderr]. *)
Inductive diagnostic :=
| new_image_invalid_arguments
| new_image_invalid_bpp
| new_image_incompatible_colors
| histogram_invalid_channel
| equalize_invalid_channel
| equalize_no_histogram
| steganography_write_too_long (allowed_len : Z)
| steganography_write_low_bpp
| steganography_read_low_bpp
| steganography_read_invalid_length.

(** [for (k = lo; k < lo + n; ++k) body], threading the state. *)
Fixpoint for_range {S : Type} (lo n : nat) (body : nat → S → option S)
    (s : S) : option S :=
  match n with
  | O => Some s
  | Datatypes.S n' => s' ← body lo s; for_range (Datatypes.S lo) n' body s'
  end.

(** ** Bit-mask arithmetic *)

Definition mask1 : list Z := [128; 64; 32; 16; 8; 4; 2; 1].
Definition mask4 : list Z := [240; 15].
Definition HI_NIBBLE : nat := 0.
Definition LO_NIBBLE : nat := 1.

(** The loop of [tr_zeros]; a non-zero 32-bit value leaves it within 32
    rounds. *)
Fixpoint tr_zeros_loop (fuel : nat) (val res : Z) : Z :=
  match fuel with
  | O => res
  | Datatypes.S fuel' =>
      if Z.land val 1 =? 0
      then tr_zeros_loop fuel' (Z.shiftr val 1) (res + 1)
      else res
  end.

Definition tr_zeros (val : Z) : Z :=
  if val =? 0 then 0 else tr_zeros_loop 32 val 0.

Definition READ_MASK (val mask : Z) : Z :=
  Z.shiftr (Z.land val mask) (tr_zeros mask).

(** ** Row framing *)

(** [(h->width * h->bit_per_pixel + 7) / 8] of [open_bitmap] and
    [save_bitmap]: unsigned 32-bit arithmetic. *)
Definition row_bytes_u32 (w bpp : Z) : Z :=
  uint32 (uint32 (w * bpp) + 7) / 8.

(** [pad = (4 - ((h->width * h->bit_per_pixel + 7) / 8) % 4) % 4]. *)
Definition pad_u32 (w bpp : Z) : Z :=
  uint32 (4 - row_bytes_u32 w bpp mod 4) mod 4.

(** [(bpp * width + 7) / 8] of [new_image]: signed [int] arithmetic. *)
Definition row_bytes_int (w bpp : Z) : option Z :=
  m ← int_checked (bpp * w);
  s ← int_checked (m + 7);
  Some (Z.quot s 8).

(** [pad = (4 - (bpp * width + 7) / 8 % 4) % 4] of [new_image]. *)
Definition pad_int (w bpp : Z) : option Z :=
  rb ← row_bytes_int w bpp;
  Some (Z.rem (4 - Z.rem rb 4) 4).

(** [bpp != 1 && bpp != 4 && bpp != 8 && bpp != 16 && bpp != 24 &&
    bpp != 32], the test of [new_image] and [open_bitmap]. *)
Definition invalid_bpp (bpp : Z) : bool :=
  negb (bpp =? 1) && negb (bpp =? 4) && negb (bpp =? 8)
  && negb (bpp =? 16) && negb (bpp =? 24) && negb (bpp =? 32).

(** ** [new_image] *)

Definition zero_xyz : Cie_xyz := mkCie_xyz 0 0 0.

(** [memset(&res, 0, sizeof (Image))]. *)
Definition zero_header : Bmp_header :=
  mkBmp_header 0 0 0 0 0 0 0 0 0 0 0 0 0 0 0 0
    (mkCie_xyz_triple zero_xyz zero_xyz zero_xyz) 0 0 0 0 0 0 0.

Definition zero_image : Image := mkImage zero_header [] [].

(** [for (i = 0; i < bpp; ++i) max_colors *= 2]. *)
Definition max_colors_of (bpp : Z) : Z :=
  Nat.iter (Z.to_nat bpp) (λ m, m * 2) 1.

Definition new_image (w hgt bpp colors : Z)
  : option (Image * list diagnostic) :=
  if (w <? 1) || (hgt <? 1) || (colors <? 0)
  then Some (zero_image, [new_image_invalid_arguments])
  else if invalid_bpp bpp
  then Some (zero_image, [new_image_invalid_bpp])
  else if colors >? max_colors_of bpp
  then Some (zero_image, [new_image_incompatible_colors])
  else
    pad ← pad_int w bpp;
    rb ← row_bytes_int w bpp;
    let h :=
      mkBmp_header 40 w hgt 1 bpp 0
        (uint32 (uint64 ((rb + pad) * hgt)))
        2835 2835 colors colors 0 0 0 0 0
        (mkCie_xyz_triple zero_xyz zero_xyz zero_xyz) 0 0 0 0 0 0 0 in
    Some (mkImage h
            (replicate (Z.to_nat hgt)
               (replicate (Z.to_nat w) (mkPixel 0 0 0 0)))
            (replicate (Z.to_nat colors) (mkColor 0 0 0 0)),
          []).

(** ** Pixel codec: the decoding [switch] of [open_bitmap]

    The state of the loops is the read position [buf] in [bitmap_buffer]
    and the pixel grid.  The rows of the grid come from [malloc]: their
    initial content is whatever [grid] holds. *)

Definition with_i (p : Pixel) (v : Z) : Pixel :=
  mkPixel (px_b p) (px_g p) (px_r p) v.
Definition with_b (p : Pixel) (v : Z) : Pixel :=
  mkPixel v (px_g p) (px_r p) (px_i p).
Definition with_g (p : Pixel) (v : Z) : Pixel :=
  mkPixel (px_b p) v (px_r p) (px_i p).
Definition with_r (p : Pixel) (v : Z) : Pixel :=
  mkPixel (px_b p) (px_g p) v (px_i p).

(** [pixel_data[i][j].f = v] for a field [f]. *)
Definition store_px (grid : list (list Pixel)) (i j : nat)
    (upd : Pixel → Pixel) : option (list (list Pixel)) :=
  p ← get_px grid i j; set_px grid i j (upd p).

(** A 16-bit and a 32-bit little-endian word at [buf]. *)
Definition load16 (buffer : list Z) (buf : nat) : option Z :=
  b0 ← buffer !! buf; b1 ← buffer !! (buf + 1)%nat;
  Some (b0 + 2 ^ 8 * b1).

Definition load32 (buffer : list Z) (buf : nat) : option Z :=
  b0 ← buffer !! buf; b1 ← buffer !! (buf + 1)%nat;
  b2 ← buffer !! (buf + 2)%nat; b3 ← buffer !! (buf + 3)%nat;
  Some (b0 + 2 ^ 8 * b1 + 2 ^ 16 * b2 + 2 ^ 24 * b3).

Definition unpack_state : Type := nat * list (list Pixel).

(** One row of [case 1]: the byte is left only when its eighth bit has
    been read. *)
Definition unpack_row_1 (bitmap_buffer : list Z) (w i : nat)
    (st : unpack_state) : option unpack_state :=
  '(buf, bit, grid) ←
    for_range 0 w (λ j '(buf, bit, grid),
      v ← bitmap_buffer !! buf;
      m ← mask1 !! bit;
      grid' ← store_px grid i j (λ p, with_i p (uint8 (READ_MASK v m)));
      let bit' := Datatypes.S bit in
      if decide (bit' = 8%nat) then Some (Datatypes.S buf, 0%nat, grid')
      else Some (buf, bit', grid'))
    (st.1, 0%nat, st.2);
  Some (buf, grid).

(** One row of [case 4]: [j] advances by two. *)
Definition unpack_row_4 (bitmap_buffer : list Z) (w i : nat)
    (st : unpack_state) : option unpack_state :=
  for_range 0 (Nat.div (w + 1) 2) (λ k '(buf, grid),
    let j := (2 * k)%nat in
    v ← bitmap_buffer !! buf;
    hi ← mask4 !! HI_NIBBLE;
    grid1 ← store_px grid i j (λ p, with_i p (uint8 (READ_MASK v hi)));
    grid2 ←
      (if decide (j + 1 < w)%nat then
         lo ← mask4 !! LO_NIBBLE;
         store_px grid1 i (j + 1) (λ p, with_i p (uint8 (READ_MASK v lo)))
       else Some grid1);
    Some (Datatypes.S buf, grid2)) st.

Definition unpack_row_8 (bitmap_buffer : list Z) (w i : nat)
    (st : unpack_state) : option unpack_state :=
  for_range 0 w (λ j '(buf, grid),
    v ← bitmap_buffer !! buf;
    grid' ← store_px grid i j (λ p, with_i p v);
    Some (Datatypes.S buf, grid')) st.

Definition unpack_row_16 (h : Bmp_header) (bitmap_buffer : list Z)
    (w i : nat) (st : unpack_state) : option unpack_state :=
  for_range 0 w (λ j '(buf, grid),
    px ← load16 bitmap_buffer buf;
    grid1 ← store_px grid i j
               (λ p, with_b p (uint8 (READ_MASK px (blue_mask h))));
    grid2 ← store_px grid1 i j
               (λ p, with_g p (uint8 (READ_MASK px (green_mask h))));
    grid3 ← store_px grid2 i j
               (λ p, with_r p (uint8 (READ_MASK px (red_mask h))));
    Some ((buf + 2)%nat, grid3)) st.

Definition unpack_row_24 (bitmap_buffer : list Z) (w i : nat)
    (st : unpack_state) : option unpack_state :=
  for_range 0 w (λ j '(buf, grid),
    vb ← bitmap_buffer !! buf;
    grid1 ← store_px grid i j (λ p, with_b p vb);
    vg ← bitmap_buffer !! (buf + 1)%nat;
    grid2 ← store_px grid1 i j (λ p, with_g p vg);
    vr ← bitmap_buffer !! (buf + 2)%nat;
    grid3 ← store_px grid2 i j (λ p, with_r p vr);
    Some ((buf + 3)%nat, grid3)) st.

Definition unpack_row_32 (h : Bmp_header) (bitmap_buffer : list Z)
    (w i : nat) (st : unpack_state) : option unpack_state :=
  for_range 0 w (λ j '(buf, grid),
    px ← load32 bitmap_buffer buf;
    grid1 ← store_px grid i j
               (λ p, with_b p (uint8 (READ_MASK px (blue_mask h))));
    grid2 ← store_px grid1 i j
               (λ p, with_g p (uint8 (READ_MASK px (green_mask h))));
    grid3 ← store_px grid2 i j
               (λ p, with_r p (uint8 (READ_MASK px (red_mask h))));
    grid4 ← store_px grid3 i j
               (λ p, with_i p (uint8 (READ_MASK px (alpha_mask h))));
    Some ((buf + 4)%nat, grid4)) st.

(** [for (i = 0; i < h->height; ++i) { row; buf += pad; }]. *)
Definition unpack_rows (h : Bmp_header)
    (row : nat → nat → unpack_state → option unpack_state)
    (st : unpack_state) : option unpack_state :=
  let w := Z.to_nat (width h) in
  let pad := Z.to_nat (pad_u32 (width h) (bit_per_pixel h)) in
  for_range 0 (Z.to_nat (height h)) (λ i st,
    '(buf, grid) ← row w i st; Some ((buf + pad)%nat, grid)) st.

(** Lines 359 to 479 of [open_bitmap]: the buffer read from the file is
    decoded into the grid by the [case] of the depth; no [case] matches
    another depth and the grid is left as it is. *)
Definition open_bitmap_pixels (h : Bmp_header) (bitmap_buffer : list Z)
    (grid : list (list Pixel)) : option (list (list Pixel)) :=
  let st := (0%nat, grid) in
  st' ←
    (if bit_per_pixel h =? 1
     then unpack_rows h (unpack_row_1 bitmap_buffer) st
     else if bit_per_pixel h =? 4
     then unpack_rows h (unpack_row_4 bitmap_buffer) st
     else if bit_per_pixel h =? 8
     then unpack_rows h (unpack_row_8 bitmap_buffer) st
     else if bit_per_pixel h =? 16
     then unpack_rows h (unpack_row_16 h bitmap_buffer) st
     else if bit_per_pixel h =? 24
     then unpack_rows h (unpack_row_24 bitmap_buffer) st
     else if bit_per_pixel h =? 32
     then unpack_rows h (unpack_row_32 h bitmap_buffer) st
     else Some st);
  Some st'.2.

(** ** Pixel codec: the encoding [switch] of [save_bitmap]

    The state is the write position [buf] and the buffer, which [calloc]
    has filled with [h->image_size] zero bytes. *)

Definition pack_state : Type := nat * list Z.

(** [*buf++ = v]. *)
Definition emit (st : pack_state) (v : Z) : option pack_state :=
  if decide (st.1 < length st.2)%nat
  then Some (Datatypes.S st.1, <[st.1 := v]> st.2)
  else None.

(** [for (bit = 7; bit >= 0 && j < h->width; --bit)] of [case 1]; [n]
    bounds the rounds, and [bit] is below zero after eight of them. *)
Fixpoint pack_byte_1 (n : nat) (grid : list (list Pixel)) (w i : nat)
    (bit : Z) (j : nat) (tmp : Z) : option (nat * Z) :=
  match n with
  | O => Some (j, tmp)
  | Datatypes.S n' =>
      if (0 <=? bit) && bool_decide (j < w)%nat then
        p ← get_px grid i j;
        pack_byte_1 n' grid w i (bit - 1) (Datatypes.S j)
          (uint8 (Z.lor tmp (Z.shiftl (if px_i p =? 0 then 0 else 1) bit)))
      else Some (j, tmp)
  end.

(** [while (j < h->width)] of [case 1]; every round moves [j] forward, so
    [w] rounds are enough. *)
Fixpoint pack_while_1 (fuel : nat) (grid : list (list Pixel)) (w i j : nat)
    (st : pack_state) : option pack_state :=
  if bool_decide (j < w)%nat then
    match fuel with
    | O => None
    | Datatypes.S fuel' =>
        '(j', tmp) ← pack_byte_1 8 grid w i 7 j 0;
        st' ← emit st tmp;
        pack_while_1 fuel' grid w i j' st'
    end
  else Some st.

Definition pack_row_1 (grid : list (list Pixel)) (w i : nat)
    (st : pack_state) : option pack_state :=
  pack_while_1 w grid w i 0 st.

(** One row of [case 4].  The second pixel of a byte is guarded by
    [j + 1 < h->height]. *)
Definition pack_row_4 (h : Bmp_header) (grid : list (list Pixel))
    (w i : nat) (st : pack_state) : option pack_state :=
  for_range 0 (Nat.div (w + 1) 2) (λ k st,
    let j := (2 * k)%nat in
    p ← get_px grid i j;
    let tmp := uint8 (Z.lor 0 (Z.shiftl (px_i p) 4)) in
    tmp' ←
      (if Z.of_nat j + 1 <? height h then
         q ← get_px grid i (j + 1);
         lo ← mask4 !! LO_NIBBLE;
         Some (uint8 (Z.lor tmp (Z.land (px_i q) lo)))
       else Some tmp);
    emit st tmp') st.

Definition pack_row_8 (grid : list (list Pixel)) (w i : nat)
    (st : pack_state) : option pack_state :=
  for_range 0 w (λ j st, p ← get_px grid i j; emit st (px_i p)) st.

(** The shifts are done on [int]; the sum is cut to the width of the
    word it is stored in. *)
Definition pack_row_16 (h : Bmp_header) (grid : list (list Pixel))
    (w i : nat) (st : pack_state) : option pack_state :=
  for_range 0 w (λ j st,
    p ← get_px grid i j;
    let px := uint16 (Z.shiftl (px_b p) (tr_zeros (blue_mask h))
                      + Z.shiftl (px_g p) (tr_zeros (green_mask h))
                      + Z.shiftl (px_r p) (tr_zeros (red_mask h))) in
    st1 ← emit st (px mod 2 ^ 8);
    emit st1 (px / 2 ^ 8)) st.

Definition pack_row_24 (grid : list (list Pixel)) (w i : nat)
    (st : pack_state) : option pack_state :=
  for_range 0 w (λ j st,
    p ← get_px grid i j;
    st1 ← emit st (px_b p);
    st2 ← emit st1 (px_g p);
    emit st2 (px_r p)) st.

Definition pack_row_32 (h : Bmp_header) (grid : list (list Pixel))
    (w i : nat) (st : pack_state) : option pack_state :=
  for_range 0 w (λ j st,
    p ← get_px grid i j;
    let px := uint32 (Z.shiftl (px_b p) (tr_zeros (blue_mask h))
                      + Z.shiftl (px_g p) (tr_zeros (green_mask h))
                      + Z.shiftl (px_r p) (tr_zeros (red_mask h))
                      + Z.shiftl (px_i p) (tr_zeros (alpha_mask h))) in
    st1 ← emit st (px mod 2 ^ 8);
    st2 ← emit st1 (px / 2 ^ 8 mod 2 ^ 8);
    st3 ← emit st2 (px / 2 ^ 16 mod 2 ^ 8);
    emit st3 (px / 2 ^ 24)) st.

(** [for (i = 0; i < h->height; ++i) { row; buf += pad; }]. *)
Definition pack_rows (h : Bmp_header)
    (row : nat → nat → pack_state → option pack_state)
    (st : pack_state) : option pack_state :=
  let w := Z.to_nat (width h) in
  let pad := Z.to_nat (pad_u32 (width h) (bit_per_pixel h)) in
  for_range 0 (Z.to_nat (height h)) (λ i st,
    '(buf, buffer) ← row w i st; Some ((buf + pad)%nat, buffer)) st.

(** Lines 553 to 671 of [save_bitmap]: the buffer handed to [fwrite]. *)
Definition save_bitmap_pixels (image : Image) : option (list Z) :=
  let h := bmp_header image in
  let grid := pixel_data image in
  let st := (0%nat, replicate (Z.to_nat (image_size h)) 0) in
  st' ←
    (if bit_per_pixel h =? 1 then pack_rows h (pack_row_1 grid) st
     else if bit_per_pixel h =? 4 then pack_rows h (pack_row_4 h grid) st
     else if bit_per_pixel h =? 8 then pack_rows h (pack_row_8 grid) st
     else if bit_per_pixel h =? 16 then pack_rows h (pack_row_16 h grid) st
     else if bit_per_pixel h =? 24 then pack_rows h (pack_row_24 grid) st
     else if bit_per_pixel h =? 32 then pack_rows h (pack_row_32 h grid) st
     else Some st);
  Some st'.2.

(** ** Floating point

    [double] is Rocq's primitive binary64.  [float] is binary32, given
    here by rounding exact rationals to 24 significant bits, to nearest
    with ties to even; the values [equalize] meets are positive and far
    inside the normal range, which is all this rounding covers. *)

Definition double_of_int (n : Z) : float :=
  if n <? 0 then PrimFloat.opp (PrimFloat.of_uint63 (Uint63.of_Z (- n)))
  else PrimFloat.of_uint63 (Uint63.of_Z n).

(** The integer part of a finite [double], towards zero. *)
Definition double_trunc (f : float) : Z :=
  match Prim2SF f with
  | S754_finite s m e =>
      let mag := match e with
                 | Z0 => Zpos m
                 | Zpos k => Z.shiftl (Zpos m) (Zpos k)
                 | Zneg k => Z.shiftr (Zpos m) (Zpos k)
                 end in
      if s then - mag else mag
  | _ => 0
  end.

(** Conversion of a [double] to [uint8_t].  C defines it only when the
    integer part is within 0..255; outside, the code GCC emits on x86-64
    keeps the low byte of the integer part, which is what is modelled. *)
Definition double_to_uint8 (f : float) : Z := uint8 (double_trunc f).

(** [n / d * 2 ^ k] as a fraction, for positive [n] and [d]. *)
Definition scale2 (n d k : Z) : Z * Z :=
  if 0 <=? k then (n * 2 ^ k, d) else (n, d * 2 ^ (- k)).

(** The exponent [e] with [2 ^ e <= n / d < 2 ^ (e + 1)]. *)
Definition floor_log2 (n d : Z) : Z :=
  let e := Z.log2 n - Z.log2 d in
  let '(n', d') := scale2 n d (- e) in
  if n' <? d' then e - 1 else e.

(** Nearest integer to [n / d], ties to even. *)
Definition round_half_even (n d : Z) : Z :=
  let q := n / d in
  let r := n mod d in
  if 2 * r <? d then q
  else if d <? 2 * r then q + 1
  else if Z.even q then q else q + 1.

(** The binary32 number nearest to the rational [n / d], as a fraction. *)
Definition round_binary32 (n d : Z) : Z * Z :=
  if (n <=? 0) || (d <=? 0) then (0, 1)
  else
    let e := floor_log2 n d in
    let '(n', d') := scale2 n d (23 - e) in
    let m := round_half_even n' d' in
    scale2 m 1 (e - 23).

(** A non-negative [float] as the fraction it is equal to. *)
Definition float32 : Type := (Z * Z)%type.

Definition float32_of_int (n : Z) : float32 := round_binary32 n 1.

Definition float32_div (a b : float32) : float32 :=
  round_binary32 (a.1 * b.2) (a.2 * b.1).

Definition float32_mul (a b : float32) : float32 :=
  round_binary32 (a.1 * b.1) (a.2 * b.2).

Definition float32_trunc (a : float32) : Z := a.1 / a.2.

(** Conversion of a [float] to [uint8_t], with the same convention as
    [double_to_uint8] outside 0..255. *)
Definition float32_to_uint8 (a : float32) : Z := uint8 (float32_trunc a).

(** ** Pixel filters *)

(** [a[k]] for an index held in an integer. *)
Definition array_get {T : Type} (a : list T) (k : Z) : option T :=
  if k <? 0 then None else a !! Z.to_nat k.

Definition array_set {T : Type} (a : list T) (k : Z) (v : T)
  : option (list T) :=
  if (k <? 0) || (Z.of_nat (length a) <=? k) then None
  else Some (<[Z.to_nat k := v]> a).

(** The two nested loops over the pixels that the filters share:
    [for (i = 0; i < height; ++i) for (j = 0; j < width; ++j) body]. *)
Definition for_pixels {S : Type} (h : Bmp_header)
    (body : nat → nat → S → option S) (s : S) : option S :=
  for_range 0 (Z.to_nat (height h)) (λ i s,
    for_range 0 (Z.to_nat (width h)) (λ j s, body i j s) s) s.

(** [histogram]: [None] as result is the [NULL] pointer. *)
Definition histogram (image : Image) (channel : Z)
  : option (option (list Z) * list diagnostic) :=
  if (channel <? 0) || (channel >? 3)
  then Some (None, [histogram_invalid_channel])
  else
    hist ← for_pixels (bmp_header image) (λ i j hist,
              p ← get_px (pixel_data image) i j;
              v ← get_channel p channel;
              c ← array_get hist v;
              array_set hist v (uint64 (c + 1)))
            (replicate 256 0);
    Some (Some hist, []).

(** The cumulative distribution of [equalize]:
    [cdf[0] = h[0]; for (i = 1; i < li; ++i) cdf[i] = cdf[i - 1] + h[i]]. *)
Definition equalize_cdf (hist : list Z) : option (list Z) :=
  h0 ← array_get hist 0;
  cdf0 ← array_set (replicate 256 0) 0 h0;
  for_range 1 255 (λ i cdf,
    prev ← array_get cdf (Z.of_nat i - 1);
    hi ← array_get hist (Z.of_nat i);
    array_set cdf (Z.of_nat i) (uint64 (prev + hi))) cdf0.

(** The coefficient [c = (float) lo / (float) area]; with a zero area it
    is infinite, and [None] here. *)
Definition equalize_coefficient (h : Bmp_header) : option float32 :=
  let lo := 256 in
  let area := uint32 (width h * height h) in
  if area =? 0 then None
  else Some (float32_div (float32_of_int lo) (float32_of_int area)).

(** [px[channel] = c * cdf[px[channel]]]. *)
Definition equalize_pixel (c : option float32) (cdf : list Z) (channel : Z)
    (p : Pixel) : option Pixel :=
  v ← get_channel p channel;
  n ← array_get cdf v;
  c' ← c;
  set_channel p channel
    (float32_to_uint8 (float32_mul c' (float32_of_int n))).

Definition equalize (image : Image) (channel : Z)
  : option (Z * Image * list diagnostic) :=
  let c := equalize_coefficient (bmp_header image) in
  if (channel <? 0) || (channel >? 3)
  then Some (1, image, [equalize_invalid_channel])
  else
    '(hp, msgs) ← histogram image channel;
    match hp with
    | None => Some (1, image, msgs ++ [equalize_no_histogram])
    | Some hist =>
        cdf ← equalize_cdf hist;
        grid ← for_pixels (bmp_header image) (λ i j grid,
                  p ← get_px grid i j;
                  p' ← equalize_pixel c cdf channel p;
                  set_px grid i j p')
                (pixel_data image);
        Some (0, mkImage (bmp_header image) grid (palette image), msgs)
    end.

(** The body of the loops of [rgb2ycbcr]; [p] is the copy taken of the
    pixel before any store. *)
Definition rgb2ycbcr_pixel (grid : list (list Pixel)) (i j : nat)
  : option (list (list Pixel)) :=
  p ← get_px grid i j;
  let y := double_to_uint8
             (0.299 * double_of_int (px_r p)
              + 0.587 * double_of_int (px_g p)
              + 0.114 * double_of_int (px_b p))%float in
  grid1 ← store_px grid i j (λ q, with_b q y);
  grid2 ← store_px grid1 i j (λ q, with_g q
            (double_to_uint8
               (128 + 0.713 * double_of_int (px_b p - y))%float));
  store_px grid2 i j (λ q, with_r q
            (double_to_uint8
               (128 + 0.564 * double_of_int (px_r p - y))%float)).

Definition rgb2ycbcr (image : Image) : option (Z * Image) :=
  grid ← for_pixels (bmp_header image)
            (λ i j grid, rgb2ycbcr_pixel grid i j) (pixel_data image);
  Some (0, mkImage (bmp_header image) grid (palette image)).

Definition ycbcr2rgb_pixel (grid : list (list Pixel)) (i j : nat)
  : option (list (list Pixel)) :=
  p ← get_px grid i j;
  grid1 ← store_px grid i j (λ q, with_r q
            (double_to_uint8
               (double_of_int (px_b p + 0)
                + 1.402 * double_of_int (px_r p - 128))%float));
  grid2 ← store_px grid1 i j (λ q, with_g q
            (double_to_uint8
               (double_of_int (px_b p)
                - 0.34414 * double_of_int (px_g p - 128)
                - 0.71414 * double_of_int (px_r p - 128))%float));
  store_px grid2 i j (λ q, with_b q
            (double_to_uint8
               (double_of_int (px_b p)
                + 1.772 * double_of_int (px_g p - 128) + 0)%float)).

Definition ycbcr2rgb (image : Image) : option (Z * Image) :=
  grid ← for_pixels (bmp_header image)
            (λ i j grid, ycbcr2rgb_pixel grid i j) (pixel_data image);
  Some (0, mkImage (bmp_header image) grid (palette image)).

(** ** Steganographic channel *)

(** The position of a channel unit: row, column and channel. *)
Definition cursor : Type := (nat * nat * Z)%type.

(** The macro [NEXT(i, j, ch, w)]. *)
Definition NEXT (cur : cursor) (w : Z) : cursor :=
  let '(i, j, ch) := cur in
  if ch + 1 =? 3 then
    if Z.of_nat j + 1 =? w then (Datatypes.S i, 0%nat, 0)
    else (i, Datatypes.S j, 0)
  else (i, j, ch + 1).

(** [px[ch]], with [px] the bytes of [image.pixel_data[i][j]]. *)
Definition load_unit (grid : list (list Pixel)) (cur : cursor) : option Z :=
  let '(i, j, ch) := cur in
  p ← get_px grid i j; get_channel p ch.

Definition store_unit (grid : list (list Pixel)) (cur : cursor) (v : Z)
  : option (list (list Pixel)) :=
  let '(i, j, ch) := cur in
  p ← get_px grid i j; p' ← set_channel p ch v; set_px grid i j p'.

(** [if (px[ch] == 255) --px[ch];] *)
Definition prevent_overflow (v : Z) : Z :=
  if v =? 255 then uint8 (v - 1) else v.

(** One bit written:
    [px[ch] += (px[ch] % 2 + bit) % 2; NEXT(i, j, ch, h->width);]
    after the guard against overflow. *)
Definition write_bit (w : Z) (bit : Z)
    (st : list (list Pixel) * cursor) : option (list (list Pixel) * cursor) :=
  let '(grid, cur) := st in
  v ← load_unit grid cur;
  let v1 := prevent_overflow v in
  grid' ← store_unit grid cur (uint8 (v1 + (v1 mod 2 + bit) mod 2));
  Some (grid', NEXT cur w).

(** [string[k]]: the characters, then the terminating zero. *)
Definition string_at (string : list Z) (k : nat) : option Z :=
  (string ++ [0]) !! k.

(** The last loop of [steganography_write],
    [while (i < h->height) { ...; px[ch] += rand() % 2; NEXT }];
    [n] counts the calls of [rand]. *)
Fixpoint fill_random (fuel : nat) (rand : nat → Z) (n : nat) (h : Bmp_header)
    (st : list (list Pixel) * cursor) : option (list (list Pixel) * cursor) :=
  let '(grid, cur) := st in
  if Z.of_nat cur.1.1 <? height h then
    match fuel with
    | O => None
    | Datatypes.S fuel' =>
        v ← load_unit grid cur;
        let v1 := prevent_overflow v in
        grid' ← store_unit grid cur (uint8 (v1 + Z.rem (rand n) 2));
        fill_random fuel' rand (Datatypes.S n) h (grid', NEXT cur (width h))
    end
  else Some st.

(** [(h->width * h->height * 3 - STEG_LEN) / CHAR_BIT], on 32 bits
    without sign. *)
Definition allowed_len (h : Bmp_header) : Z :=
  uint32 (uint32 (uint32 (width h * height h) * 3) - STEG_LEN) / CHAR_BIT.

(** [rand n] is the value of the call number [n] of [rand()].  The
    number of channel units bounds the rounds of the last loop. *)
Definition steganography_write (rand : nat → Z) (image : Image)
    (string : list Z) : option (Z * Image * list diagnostic) :=
  let h := bmp_header image in
  let len := uint64 (Z.of_nat (length string) + 1) in
  if len >? allowed_len h
  then Some (1, image, [steganography_write_too_long (allowed_len h)])
  else if bit_per_pixel h <? 16
  then Some (1, image, [steganography_write_low_bpp])
  else
    st1 ← for_range 0 (Z.to_nat STEG_LEN) (λ k st,
             write_bit (width h) (Z.land (Z.shiftr len (Z.of_nat k)) 1) st)
           (pixel_data image, (0%nat, 0%nat, 0));
    st2 ← for_range 0 (Z.to_nat len) (λ k st,
             c ← string_at string k;
             for_range 0 (Z.to_nat CHAR_BIT) (λ l st,
               write_bit (width h) (Z.land (Z.shiftr c (Z.of_nat l)) 1) st)
             st)
           st1;
    st3 ← fill_random (Z.to_nat (3 * width h * height h)) rand 0 h st2;
    Some (0, mkImage h st3.1 (palette image), []).

(** [steganography_read]: [None] as result is the [NULL] pointer, and
    otherwise the [len] characters of the buffer from [calloc]. *)
Definition steganography_read (image : Image)
  : option (option (list Z) * list diagnostic) :=
  let h := bmp_header image in
  let grid := pixel_data image in
  if bit_per_pixel h <? 16
  then Some (None, [steganography_read_low_bpp])
  else
    '(len, cur) ← for_range 0 (Z.to_nat STEG_LEN) (λ k '(len, cur),
                     v ← load_unit grid cur;
                     Some (uint64 (len + uint32 (Z.shiftl (uint32 (v mod 2))
                                                   (Z.of_nat k))),
                           NEXT cur (width h)))
                   (0, (0%nat, 0%nat, 0));
    if len >? allowed_len h
    then Some (None, [steganography_read_invalid_length])
    else
      '(res, _) ← for_range 0 (Z.to_nat len) (λ k st,
                     for_range 0 (Z.to_nat CHAR_BIT) (λ l '(res, cur),
                       v ← load_unit grid cur;
                       c ← res !! k;
                       Some (<[k := to_char (c + Z.shiftl (uint8 (v mod 2))
                                                  (Z.of_nat l))]> res,
                             NEXT cur (width h)))
                     st)
                   (replicate (Z.to_nat len) 0, cur);
      Some (Some res, []).

(** * Vocabulary of the statements *)

(** ** Valid images *)

(** The grid has [height] rows of [width] pixels. *)
Definition valid_grid (image : Image) : Prop :=
  length (pixel_data image) = Z.to_nat (height (bmp_header image))
  ∧ Forall (λ row, length row = Z.to_nat (width (bmp_header image)))
           (pixel_data image).

(** A grid of [hn] rows of [wn] pixels. *)
Definition grid_shape (grid : list (list Pixel)) (hn wn : nat) : Prop :=
  length grid = hn ∧ Forall (λ row, length row = wn) grid.

(** The header fields that size the grid are values of their C type. *)
Definition valid_dimensions (h : Bmp_header) : Prop :=
  1 <= width h < 2 ^ 32 ∧ 1 <= height h < 2 ^ 32.

Definition is_byte (v : Z) : Prop := 0 <= v < 256.

Definition valid_pixel (p : Pixel) : Prop :=
  is_byte (px_b p) ∧ is_byte (px_g p) ∧ is_byte (px_r p) ∧ is_byte (px_i p).

Definition valid_pixels (image : Image) : Prop :=
  Forall (Forall valid_pixel) (pixel_data image).

(** ** Loops as folds *)

(** A monadic fold over a list, the shape loops over pixels reduce to. *)
Fixpoint fold_opt {S T : Type} (step : S → T → option S) (s : S)
    (l : list T) : option S :=
  match l with
  | [] => Some s
  | a :: l' => s' ← step s a; fold_opt step s' l'
  end.

(** ** Row framing, in the words of the specification *)

(** [ceil(a / b)], then the row length and the padding. *)
Definition ceil_div (a b : Z) : Z :=
  if a mod b =? 0 then a / b else a / b + 1.

Definition row_byte_length (w depth : Z) : Z := ceil_div (w * depth) 8.

Definition padding (w depth : Z) : Z :=
  (4 - row_byte_length w depth mod 4) mod 4.

Definition supported_depth (d : Z) : Prop :=
  d = 1 ∨ d = 4 ∨ d = 8 ∨ d = 16 ∨ d = 24 ∨ d = 32.

(** The row framing as the specification states it, for every width:
    the three functions compute the row length and the padding of the
    specification. *)
Definition row_framing_as_stated (w d : Z) : Prop :=
  row_bytes_u32 w d = row_byte_length w d
  ∧ pad_u32 w d = padding w d
  ∧ row_bytes_int w d = Some (row_byte_length w d)
  ∧ pad_int w d = Some (padding w d).

(** The bytes a row of [wn] pixels takes at one bit per pixel, and the
    bytes from a row to the next in the buffer of [save_bitmap]. *)
Definition row_bytes_1 (wn : nat) : nat := ((wn + 7) / 8)%nat.

Definition stride_1 (h : Bmp_header) : nat :=
  (row_bytes_1 (Z.to_nat (width h))
   + Z.to_nat (pad_u32 (width h) (bit_per_pixel h)))%nat.

(** ** Histogram and equalization *)

(** The number of pixels whose channel holds [v], and the number of
    those whose channel holds at most [v]. *)
Definition channel_is (channel v : Z) (p : Pixel) : bool :=
  match get_channel p channel with
  | Some u => u =? v
  | None => false
  end.

Definition channel_le (channel v : Z) (p : Pixel) : bool :=
  match get_channel p channel with
  | Some u => u <=? v
  | None => false
  end.

(** The number of pixels of a list that pass a test. *)
Definition count_in (test : Pixel → bool) (pixels : list Pixel) : Z :=
  Z.of_nat (length (List.filter test pixels)).

Definition count_pixels (test : Pixel → bool) (image : Image) : Z :=
  Z.of_nat (length (List.filter test (concat (pixel_data image)))).

Definition sum_counts (l : list Z) : Z := foldr Z.add 0 l.

(** The step of the histogram loop on one pixel. *)
Definition histogram_step (channel : Z) (hist : list Z) (p : Pixel)
  : option (list Z) :=
  v ← get_channel p channel;
  c ← array_get hist v;
  array_set hist v (uint64 (c + 1)).

(** The cumulative distribution at [v]: the pixels whose channel holds
    at most [v]. *)
Definition cdf_of (image : Image) (channel v : Z) : Z :=
  count_pixels (channel_le channel v) image.

(** [c * cdf] as [equalize] evaluates it in single precision, with
    [c = 256 / area]. *)
Definition equalize_value (h : Bmp_header) (cdf : Z) : float32 :=
  float32_mul
    (float32_div (float32_of_int 256) (float32_of_int (width h * height h)))
    (float32_of_int cdf).

(** The pixel [equalize] writes, when it can. *)
Definition equalize_pixel_total (c : option float32) (cdf : list Z)
    (channel : Z) (p : Pixel) : Pixel :=
  default p (equalize_pixel c cdf channel p).

(** The value the specification gives to an equalized channel:
    [round(255 / area * CDF)], with halves rounded up. *)
Definition equalized_by_spec (area cdf : Z) : Z :=
  (2 * 255 * cdf + area) / (2 * area).

(** The remapping as the specification words it: every pixel's channel
    value [v] becomes [round(255 / area * CDF[v])]. *)
Definition equalize_as_specified (image : Image) (channel : Z) : Prop :=
  ∃ image',
    equalize image channel = Some (0, image', [])
    ∧ ∀ i j p, get_px (pixel_data image) i j = Some p →
        ∃ v p', get_channel p channel = Some v
                ∧ get_px (pixel_data image') i j = Some p'
                ∧ get_channel p' channel
                  = Some (equalized_by_spec
                            (width (bmp_header image)
                             * height (bmp_header image))
                            (cdf_of image channel v)).

(** ** Colour conversions *)

(** What the body of the loops of [rgb2ycbcr] leaves in a pixel. *)
Definition rgb2ycbcr_value (p : Pixel) : Pixel :=
  let y := double_to_uint8
             (0.299 * double_of_int (px_r p)
              + 0.587 * double_of_int (px_g p)
              + 0.114 * double_of_int (px_b p))%float in
  mkPixel y
    (double_to_uint8 (128 + 0.713 * double_of_int (px_b p - y))%float)
    (double_to_uint8 (128 + 0.564 * double_of_int (px_r p - y))%float)
    (px_i p).

(** What the body of the loops of [ycbcr2rgb] leaves in a pixel. *)
Definition ycbcr2rgb_value (p : Pixel) : Pixel :=
  mkPixel
    (double_to_uint8
       (double_of_int (px_b p)
        + 1.772 * double_of_int (px_g p - 128) + 0)%float)
    (double_to_uint8
       (double_of_int (px_b p)
        - 0.34414 * double_of_int (px_g p - 128)
        - 0.71414 * double_of_int (px_r p - 128))%float)
    (double_to_uint8
       (double_of_int (px_b p + 0)
        + 1.402 * double_of_int (px_r p - 128))%float)
    (px_i p).

(** The colour conversion with the coefficients of the specification
    and of the comment above [rgb2ycbcr]:
    [Cb = 128 + 0.564 (B - Y)] and [Cr = 128 + 0.713 (R - Y)]. *)
Definition documented_ycbcr (p : Pixel) : Pixel :=
  let y := double_to_uint8
             (0.299 * double_of_int (px_r p)
              + 0.587 * double_of_int (px_g p)
              + 0.114 * double_of_int (px_b p))%float in
  mkPixel y
    (double_to_uint8 (128 + 0.564 * double_of_int (px_b p - y))%float)
    (double_to_uint8 (128 + 0.713 * double_of_int (px_r p - y))%float)
    (px_i p).

(** [image'] is [image] with other values in the blue, green and red
    bytes of its pixels, and nothing else changed. *)
Definition only_colours_changed (image image' : Image) : Prop :=
  bmp_header image' = bmp_header image
  ∧ palette image' = palette image
  ∧ valid_grid image'
  ∧ ∀ i j p, get_px (pixel_data image) i j = Some p →
             ∃ p', get_px (pixel_data image') i j = Some p'
                   ∧ px_i p' = px_i p.

(** ** Steganographic messages *)

(** A C string without its terminator: no character is zero, and each
    is a value of [char]. *)
Definition c_string (s : list Z) : Prop :=
  Forall (λ c, c ≠ 0 ∧ -128 <= c <= 127) s.

(** What a reader of a character buffer sees as its string. *)
Fixpoint as_c_string (buffer : list Z) : list Z :=
  match buffer with
  | [] => []
  | c :: rest => if c =? 0 then [] else c :: as_c_string rest
  end.

(** The capacity of the steganographic channel in bytes, as the
    specification writes it: [(width * height * 3 - 32) / 8], with the
    quotient of C, which rounds towards zero. *)
Definition capacity (h : Bmp_header) : Z :=
  Z.quot (width h * height h * 3 - 32) 8.

(** The channel unit number [n] in scan order, for rows of [w] pixels. *)
Definition cursor_of (w : Z) (n : nat) : cursor :=
  (Z.to_nat (Z.of_nat n / (3 * w)),
   Z.to_nat (Z.of_nat n / 3 mod w),
   Z.of_nat n mod 3).

(** The number of a channel unit, the inverse of [cursor_of]. *)
Definition unit_index (w : Z) (cur : cursor) : Z :=
  3 * (w * Z.of_nat cur.1.1 + Z.of_nat cur.1.2) + cur.2.

(** The bits the writer sends, least significant first. *)
Definition bit_of (v : Z) (k : nat) : Z := Z.land (Z.shiftr v (Z.of_nat k)) 1.

Definition len_bits (len : Z) : list Z :=
  map (bit_of len) (seq 0 (Z.to_nat STEG_LEN)).

Definition char_bits (c : Z) : list Z :=
  map (bit_of c) (seq 0 (Z.to_nat CHAR_BIT)).

(** All the bits of a message: the length, terminator included, then
    the characters and the terminator. *)
Definition message_bits (string : list Z) : list Z :=
  len_bits (Z.of_nat (length string) + 1)
  ++ flat_map char_bits (string ++ [0]).

(** A run of [write_bit], one per bit. *)
Definition write_bits (w : Z) (bits : list Z)
    (st : list (list Pixel) * cursor) : option (list (list Pixel) * cursor) :=
  fold_opt (λ st bit, write_bit w bit st) st bits.

(** The round trip as the specification words it: reading the image
    that [steganography_write] leaves gives the string back. *)
Definition round_trip_as_stated (rand : nat → Z) (image : Image)
    (string : list Z) : Prop :=
  ∃ ret image' msgs buffer msgs',
    steganography_write rand image string = Some (ret, image', msgs)
    ∧ steganography_read image' = Some (Some buffer, msgs')
    ∧ as_c_string buffer = string.

(** The first clause of C5 as stated: a message of exactly the capacity
    is written. *)
Definition capacity_success_as_stated (rand : nat → Z) (image : Image)
    (string : list Z) : Prop :=
  16 <= bit_per_pixel (bmp_header image) →
  Z.of_nat (length string) + 1 = capacity (bmp_header image) →
  ∃ image', steganography_write rand image string = Some (0, image', []).

(** The second clause of C5 as stated: one byte above the capacity is
    refused as too long. *)
Definition too_long_as_stated (rand : nat → Z) (image : Image)
    (string : list Z) : Prop :=
  Z.of_nat (length string) + 1 = capacity (bmp_header image) + 1 →
  ∃ image' n, steganography_write rand image string
              = Some (1, image', [steganography_write_too_long n]).

(** The third clause of C5 as stated: a depth below 16 is what the
    failure reports. *)
Definition depth_failure_as_stated (rand : nat → Z) (image : Image)
    (string : list Z) : Prop :=
  bit_per_pixel (bmp_header image) < 16 →
  ∃ image', steganography_write rand image string
            = Some (1, image', [steganography_write_low_bpp]).

(** ** Sample images *)

Definition sample_header (w hgt bpp size : Z) : Bmp_header :=
  mkBmp_header 40 w hgt 1 bpp 0 size 2835 2835 0 0 0 0 0 0 0
    (mkCie_xyz_triple zero_xyz zero_xyz zero_xyz) 0 0 0 0 0 0 0.

(** A palette pixel, of index [v], and a colour pixel. *)
Definition index_pixel (v : Z) : Pixel := mkPixel 0 0 0 v.
Definition colour_pixel (vb vg vr : Z) : Pixel := mkPixel vb vg vr 0.

(** A source of random numbers for the examples. *)
Definition sample_rand (n : nat) : Z := Z.of_nat n.

(** Two rows of two pixels with the indices 0 to 3, at 8 bits. *)
Definition sample_2x2 : Image :=
  mkImage (sample_header 2 2 8 8)
    [[index_pixel 0; index_pixel 1]; [index_pixel 2; index_pixel 3]] [].

(** A pixel of each colour, one row. *)
Definition sample_colours : Image :=
  mkImage (sample_header 3 1 24 12)
    [[colour_pixel 255 0 0; colour_pixel 0 255 0; colour_pixel 0 0 255]] [].

(** One pixel with R = 100, G = 150 and B = 200. *)
Definition sample_rgb : Image :=
  mkImage (sample_header 1 1 24 4) [[mkPixel 200 150 100 9]] [].

(** Two rows of five pixels at one bit; two of the indices are above
    one. *)
Definition sample_1bpp : Image :=
  mkImage (sample_header 5 2 1 8)
    [[index_pixel 1; index_pixel 0; index_pixel 2; index_pixel 0;
      index_pixel 255];
     [index_pixel 0; index_pixel 1; index_pixel 0; index_pixel 1;
      index_pixel 0]] [].

(** One row of two pixels at 4 bits, and two such rows. *)
Definition sample_4bpp : Image :=
  mkImage (sample_header 2 1 4 4) [[index_pixel 1; index_pixel 2]] [].

Definition sample_4bpp_two_rows : Image :=
  mkImage (sample_header 2 2 4 8)
    [[index_pixel 1; index_pixel 2]; [index_pixel 3; index_pixel 4]] [].

(** Three rows of three colour pixels at 24 bits: 27 channel units,
    fewer than the 32 that the length takes. *)
Definition sample_3x3 : Image :=
  mkImage (sample_header 3 3 24 36)
    (replicate 3 (replicate 3 (colour_pixel 255 10 7))) [].

(** Four rows of four colour pixels at 24 bits: 48 channel units, room
    for two bytes of message. *)
Definition sample_4x4 : Image :=
  mkImage (sample_header 4 4 24 48)
    (replicate 4 (replicate 4 (colour_pixel 255 10 7))) [].

(** The same pixels declared at 8 bits. *)
Definition sample_4x4_8bpp : Image :=
  mkImage (sample_header 4 4 8 16)
    (replicate 4 (replicate 4 (colour_pixel 255 10 7))) [].

(** An image of 44739243 by 32 pixels at 16 bits, every byte 1:
    [3 * 44739243 * 32 = 2 ^ 32 + 32] channel units. *)
Definition huge_header : Bmp_header := sample_header 44739243 32 16 2863311616.

Definition huge_image : Image :=
  mkImage huge_header
    (replicate (Z.to_nat 32) (replicate (Z.to_nat 44739243) (mkPixel 1 1 1 1)))
    [].

(** Two rows of three pixels at 16 bits, with the masks 5-6-5, and two
    rows of two pixels at 32 bits, with one byte per component. *)
Definition sample_16bpp : Image :=
  mkImage
    (mkBmp_header 124 3 2 1 16 0 16 2835 2835 0 0 63488 2016 31 0 0
       (mkCie_xyz_triple zero_xyz zero_xyz zero_xyz) 0 0 0 0 0 0 0)
    [[mkPixel 31 63 31 0; mkPixel 1 2 3 0; mkPixel 0 0 0 0];
     [mkPixel 5 6 7 0; mkPixel 30 62 30 0; mkPixel 9 9 9 0]] [].

Definition sample_32bpp : Image :=
  mkImage
    (mkBmp_header 124 2 2 1 32 0 16 2835 2835 0 0
       16711680 65280 255 4278190080 0
       (mkCie_xyz_triple zero_xyz zero_xyz zero_xyz) 0 0 0 0 0 0 0)
    [[mkPixel 1 2 3 4; mkPixel 255 254 253 252];
     [mkPixel 5 6 7 8; mkPixel 9 10 11 12]] [].

(** * Proofs *)

(** Linear arithmetic with quotients and remainders. *)
Ltac div_lia := zify; Z.to_euclidean_division_equations; lia.

(** ** Loops *)

Section Loops.
Context {S : Type}.
Implicit Types (body : nat → S → option S) (s : S).

Lemma for_range_ext body1 body2 lo n s :
    (∀ k s', (lo ≤ k < lo + n)%nat → body1 k s' = body2 k s') →
    for_range lo n body1 s = for_range lo n body2 s.
  Proof.
    revert lo s. induction n as [|n IH]; intros lo s Hext; simpl; [done|].
    rewrite Hext by lia. destruct (body2 lo s) as [s'|]; simpl; [|done].
    apply IH. intros k s'' Hk. apply Hext. lia.
  Qed.

  (** The invariant rule: a step that keeps [P] and never fails gives a
      loop that ends in a state with [P]. *)
Lemma for_range_inv (P : nat → S → Prop) body lo n s :
    P lo s →
    (∀ k s', (lo ≤ k < lo + n)%nat → P k s' →
             ∃ s'', body k s' = Some s'' ∧ P (Datatypes.S k) s'') →
    ∃ s', for_range lo n body s = Some s' ∧ P (lo + n)%nat s'.
  Proof.
    revert lo s. induction n as [|n IH]; intros lo s HP Hstep; simpl.
    - exists s. by rewrite Nat.add_0_r.
    - destruct (Hstep lo s) as (s1 & Hb & HP1); [lia|done|].
      rewrite Hb. simpl.
      destruct (IH (Datatypes.S lo) s1) as (s2 & Hl & HP2); [done| |].
      + intros k s' Hk. apply Hstep. lia.
      + exists s2. split; [done|]. by replace (lo + Datatypes.S n)%nat
          with (Datatypes.S lo + n)%nat by lia.
  Qed.

  (** A loop that reads [l] by index is a fold over [l]. *)
Lemma for_range_fold {T : Type} (step : S → T → option S) (l : list T)
      lo n s :
    (lo + n ≤ length l)%nat →
    for_range lo n (λ k s, a ← l !! k; step s a) s
    = fold_opt step s (take n (drop lo l)).
  Proof.
    revert lo s. induction n as [|n IH]; intros lo s Hlen; simpl; [done|].
    destruct (lookup_lt_is_Some_2 l lo) as [a Ha]; [lia|].
    rewrite Ha. simpl. rewrite (drop_S _ _ _ Ha). simpl.
    destruct (step s a) as [s'|]; simpl; [|done].
    apply IH. lia.
  Qed.

Lemma fold_opt_app {T : Type} (step : S → T → option S) (l1 l2 : list T) s :
    fold_opt step s (l1 ++ l2) = s' ← fold_opt step s l1; fold_opt step s' l2.
  Proof.
    revert s. induction l1 as [|a l1 IH]; intros s; simpl; [done|].
    destruct (step s a) as [s'|]; simpl; [apply IH|done].
  Qed.

Lemma fold_opt_concat {T : Type} (step : S → T → option S)
      (ls : list (list T)) s :
    fold_opt (fold_opt step) s ls = fold_opt step s (concat ls).
  Proof.
    revert s. induction ls as [|l ls IH]; intros s; simpl; [done|].
    rewrite fold_opt_app.
    destruct (fold_opt step s l) as [s'|]; simpl; [apply IH|done].
  Qed.
End Loops.

(** ** The pixel grid *)

Lemma valid_grid_shape image :
  valid_grid image →
  grid_shape (pixel_data image)
    (Z.to_nat (height (bmp_header image)))
    (Z.to_nat (width (bmp_header image))).
Proof. done. Qed.

Lemma grid_shape_row grid hn wn i row :
  grid_shape grid hn wn → grid !! i = Some row → length row = wn.
Proof.
  intros [_ Hrows] Hi. by eapply (Forall_lookup_1 _ _ _ _ Hrows Hi).
Qed.

Lemma get_px_is_Some grid hn wn i j :
  grid_shape grid hn wn → (i < hn)%nat → (j < wn)%nat →
  is_Some (get_px grid i j).
Proof.
  intros Hs Hi Hj. unfold get_px.
  destruct (lookup_lt_is_Some_2 grid i) as [row Hrow]; [destruct Hs; lia|].
  rewrite Hrow. simpl. apply lookup_lt_is_Some_2.
  rewrite (grid_shape_row _ _ _ _ _ Hs Hrow). lia.
Qed.

Lemma get_px_Some_lt grid hn wn i j p :
  grid_shape grid hn wn → get_px grid i j = Some p → (i < hn ∧ j < wn)%nat.
Proof.
  intros Hs. unfold get_px. destruct (grid !! i) as [row|] eqn:Hrow; [|done].
  simpl. intros Hj. split.
  - destruct Hs as [<- _]. by eapply lookup_lt_Some.
  - rewrite <- (grid_shape_row _ _ _ _ _ Hs Hrow). by eapply lookup_lt_Some.
Qed.

Lemma set_px_Some grid hn wn i j p :
  grid_shape grid hn wn → (i < hn)%nat → (j < wn)%nat →
  ∃ grid', set_px grid i j p = Some grid'.
Proof.
  intros Hs Hi Hj. unfold set_px.
  destruct (lookup_lt_is_Some_2 grid i) as [row Hrow]; [destruct Hs; lia|].
  rewrite Hrow. simpl. rewrite (grid_shape_row _ _ _ _ _ Hs Hrow).
  rewrite decide_True by done. eauto.
Qed.

Lemma set_px_shape grid hn wn i j p grid' :
  grid_shape grid hn wn → set_px grid i j p = Some grid' →
  grid_shape grid' hn wn.
Proof.
  intros [Hl Hrows]. unfold set_px.
  destruct (grid !! i) as [row|] eqn:Hrow; [|done]. simpl.
  case_decide; [|done]. intros [= <-]. split.
  - by rewrite length_insert.
  - apply Forall_insert; [done|]. rewrite length_insert.
    by eapply (Forall_lookup_1 _ _ _ _ Hrows Hrow).
Qed.

Lemma get_px_set_px grid i j p grid' i' j' :
  set_px grid i j p = Some grid' →
  get_px grid' i' j'
  = if decide (i' = i ∧ j' = j) then Some p else get_px grid i' j'.
Proof.
  unfold set_px, get_px.
  destruct (grid !! i) as [row|] eqn:Hrow; [|done]. simpl.
  case_decide as Hj; [|done]. intros [= <-].
  destruct (decide (i' = i)) as [->|Hi].
  - rewrite list_lookup_insert_eq by by eapply lookup_lt_Some. simpl.
    destruct (decide (j' = j)) as [->|Hj'].
    + rewrite list_lookup_insert_eq by done. by rewrite decide_True.
    + rewrite list_lookup_insert_ne by done. rewrite Hrow. simpl.
      rewrite decide_False; [done|]. by intros [_ ?].
  - rewrite list_lookup_insert_ne by done.
    rewrite decide_False; [done|]. by intros [? _].
Qed.

Lemma get_px_None_ge grid hn wn i j :
  grid_shape grid hn wn → (hn ≤ i ∨ wn ≤ j)%nat → get_px grid i j = None.
Proof.
  intros Hs Hge. destruct (get_px grid i j) as [p|] eqn:Hp; [|done].
  apply (get_px_Some_lt _ _ _ _ _ _ Hs) in Hp. lia.
Qed.

(** A loop over the pixels that only reads the grid is a fold over the
    pixels in row-major order. *)
Lemma for_pixels_fold {S : Type} h grid (body : nat → nat → S → option S)
    (step : S → Pixel → option S) s :
  grid_shape grid (Z.to_nat (height h)) (Z.to_nat (width h)) →
  (∀ i j s', body i j s' = p ← get_px grid i j; step s' p) →
  for_pixels h body s = fold_opt step s (concat grid).
Proof.
  intros Hs Hbody. unfold for_pixels.
  rewrite (for_range_ext _ (λ i s', row ← grid !! i; fold_opt step s' row)).
  - rewrite for_range_fold by (destruct Hs; lia).
    rewrite drop_0, take_ge by (destruct Hs; lia).
    apply fold_opt_concat.
  - intros i s' Hi.
    destruct (lookup_lt_is_Some_2 grid i) as [row Hrow]; [destruct Hs; lia|].
    rewrite Hrow. simpl.
    rewrite (for_range_ext _ (λ j s'', p ← row !! j; step s'' p)).
    + rewrite for_range_fold
        by (rewrite (grid_shape_row _ _ _ _ _ Hs Hrow); lia).
      by rewrite drop_0, take_ge
        by (rewrite (grid_shape_row _ _ _ _ _ Hs Hrow); lia).
    + intros j s'' _. rewrite Hbody. unfold get_px. by rewrite Hrow.
Qed.

(** A loop over the pixels that rewrites each pixel from its own value
    changes the grid pixel by pixel. *)
Lemma for_pixels_update h grid (body : nat → nat → list (list Pixel) →
                                       option (list (list Pixel)))
    (g : Pixel → Pixel) (P : Pixel → Prop) :
  grid_shape grid (Z.to_nat (height h)) (Z.to_nat (width h)) →
  (∀ i j p, get_px grid i j = Some p → P p) →
  (∀ gr i j p, get_px gr i j = Some p → P p →
               body i j gr = set_px gr i j (g p)) →
  ∃ grid', for_pixels h body grid = Some grid'
           ∧ grid_shape grid' (Z.to_nat (height h)) (Z.to_nat (width h))
           ∧ ∀ i j, get_px grid' i j = g <$> get_px grid i j.
Proof.
  intros Hs HP Hbody. unfold for_pixels.
  set (hn := Z.to_nat (height h)) in *. set (wn := Z.to_nat (width h)) in *.
  pose (Inv := λ (i : nat) (gr : list (list Pixel)),
    grid_shape gr hn wn
    ∧ ∀ i' j', get_px gr i' j'
               = if decide (i' < i)%nat then g <$> get_px grid i' j'
                 else get_px grid i' j').
  destruct (for_range_inv Inv
              (λ i s, for_range 0 wn (λ j s', body i j s') s) 0 hn grid)
    as (grid' & Hrun & Hs' & Hget).
  - split; [done|]. intros i' j'. by rewrite decide_False by lia.
  - intros i gr Hi [Hsg Hg].
    pose (InvJ := λ (j : nat) (gr' : list (list Pixel)),
      grid_shape gr' hn wn
      ∧ ∀ i' j', get_px gr' i' j'
                 = if decide (i' < i ∨ (i' = i ∧ j' < j))%nat
                   then g <$> get_px grid i' j' else get_px grid i' j').
    destruct (for_range_inv InvJ (λ j s', body i j s') 0 wn gr)
      as (gr' & Hrun & Hsg' & Hg').
    + split; [done|]. intros i' j'. rewrite Hg.
      destruct (decide (i' < i)%nat).
      * by rewrite decide_True by lia.
      * by rewrite decide_False by lia.
    + intros j gr1 Hj [Hs1 Hg1].
      destruct (get_px_is_Some grid hn wn i j) as [p Hp]; [done|lia|lia|].
      assert (get_px gr1 i j = Some p) as Hp1.
      { rewrite Hg1. by rewrite decide_False by lia. }
      rewrite (Hbody _ _ _ _ Hp1) by by eapply HP.
      destruct (set_px_Some gr1 hn wn i j (g p)) as [gr2 Hset];
        [done|lia|lia|].
      exists gr2. split; [done|]. split; [by eapply set_px_shape|].
      intros i' j'. rewrite (get_px_set_px _ _ _ _ _ _ _ Hset), Hg1.
      destruct (decide (i' = i ∧ j' = j)) as [[-> ->]|Hne].
      * rewrite decide_True by lia. by rewrite Hp.
      * destruct (decide (i' < i ∨ i' = i ∧ j' < j)%nat).
        -- by rewrite decide_True by lia.
        -- by rewrite decide_False by lia.
    + exists gr'. split; [done|]. split; [done|].
      intros i' j'. rewrite Hg'. simpl.
      destruct (decide (i' < Datatypes.S i)%nat) as [Hlt|Hge].
      * destruct (decide (i' < i ∨ i' = i ∧ j' < wn)%nat); [done|].
        rewrite (get_px_None_ge grid hn wn) by (done || lia). done.
      * by rewrite decide_False by lia.
  - exists grid'. split; [done|]. split; [done|].
    intros i j. rewrite Hget. simpl.
    destruct (decide (i < hn)%nat); [done|].
    rewrite (get_px_None_ge grid hn wn) by (done || lia). done.
Qed.

(** ** Histogram *)

Lemma sum_counts_insert (l : list Z) (k : nat) (c c' : Z) :
  l !! k = Some c → sum_counts (<[k := c']> l) = sum_counts l - c + c'.
Proof.
  revert k. induction l as [|a l IH]; intros [|k]; simpl; try done.
  - intros [= ->]. lia.
  - intros Hk. unfold sum_counts in *. simpl. rewrite (IH _ Hk). lia.
Qed.

Lemma sum_counts_replicate_0 (n : nat) : sum_counts (replicate n 0) = 0.
Proof. induction n as [|n IH]; [done|]. unfold sum_counts in *. simpl. lia. Qed.

Lemma get_channel_byte p channel v :
  valid_pixel p → get_channel p channel = Some v → is_byte v.
Proof.
  intros (Hb & Hg & Hr & Hi). unfold get_channel.
  repeat case_match; intros Heq; inversion Heq; by subst.
Qed.

Lemma get_channel_is_Some p channel :
  0 <= channel <= 3 → is_Some (get_channel p channel).
Proof.
  intros Hc. unfold get_channel.
  repeat (case_match; [by eexists|]). exfalso. lia.
Qed.

Lemma count_in_cons test p pixels :
  count_in test (p :: pixels)
  = (if test p then 1 else 0) + count_in test pixels.
Proof. unfold count_in. simpl. destruct (test p); simpl; lia. Qed.

Lemma count_in_bounds test pixels :
  0 <= count_in test pixels <= Z.of_nat (length pixels).
Proof.
  unfold count_in. pose proof (List.filter_length_le test pixels). lia.
Qed.

Lemma histogram_fold channel pixels : ∀ hist0 bound,
  0 <= channel <= 3 →
  Forall valid_pixel pixels →
  length hist0 = 256%nat →
  (∀ k c, hist0 !! k = Some c → 0 <= c <= bound) →
  bound + Z.of_nat (length pixels) < 2 ^ 64 →
  ∃ hist, fold_opt (histogram_step channel) hist0 pixels = Some hist
          ∧ length hist = 256%nat
          ∧ sum_counts hist = sum_counts hist0 + Z.of_nat (length pixels)
          ∧ ∀ v, 0 <= v < 256 →
                 hist !! Z.to_nat v
                 = (λ c, c + count_in (channel_is channel v) pixels)
                     <$> hist0 !! Z.to_nat v.
Proof.
  induction pixels as [|p pixels IH]; intros hist0 bound Hch Hpx Hlen Hb Hn.
  - exists hist0. simpl. split; [done|]. split; [done|]. split; [lia|].
    intros v Hv. unfold count_in. simpl.
    destruct (hist0 !! Z.to_nat v); simpl; f_equal; lia.
  - apply Forall_cons_1 in Hpx as [Hp Hpx]. simpl.
    destruct (get_channel_is_Some p channel Hch) as [u Hu].
    pose proof (get_channel_byte _ _ _ Hp Hu) as Hbyte. red in Hbyte.
    destruct (lookup_lt_is_Some_2 hist0 (Z.to_nat u)) as [c Hc]; [lia|].
    destruct (Hb _ _ Hc) as [Hc0 Hc1].
    assert (histogram_step channel hist0 p
            = Some (<[Z.to_nat u := c + 1]> hist0)) as Hstep.
    { unfold histogram_step. rewrite Hu. simpl. unfold array_get, array_set.
      replace (u <? 0) with false by lia. rewrite Hc. simpl.
      replace (Z.of_nat (length hist0) <=? u) with false by lia. simpl.
      do 3 f_equal. unfold uint64. rewrite Z.mod_small; simpl in *; lia. }
    rewrite Hstep. simpl.
    destruct (IH (<[Z.to_nat u := c + 1]> hist0) (bound + 1))
      as (hist & Hfold & Hl & Hsum & Hget).
    + done.
    + done.
    + by rewrite length_insert.
    + intros k c'. destruct (decide (k = Z.to_nat u)) as [->|Hne].
      * rewrite list_lookup_insert_eq by lia. intros [= <-]. lia.
      * rewrite list_lookup_insert_ne by done. intros Hk.
        apply Hb in Hk. lia.
    + simpl in *. lia.
    + exists hist. split; [done|]. split; [done|]. split.
      * rewrite Hsum, (sum_counts_insert _ _ _ _ Hc). simpl. lia.
      * intros v Hv. rewrite (Hget v Hv), count_in_cons.
        unfold channel_is at 2. rewrite Hu.
        destruct (decide (v = u)) as [->|Hne].
        -- rewrite list_lookup_insert_eq by lia. rewrite Hc. simpl.
           rewrite Z.eqb_refl. f_equal. lia.
        -- rewrite list_lookup_insert_ne by lia.
           replace (u =? v) with false by lia.
           destruct (hist0 !! Z.to_nat v); simpl; f_equal; lia.
Qed.

Lemma length_concat_shape grid hn wn :
  grid_shape grid hn wn → length (concat grid) = (hn * wn)%nat.
Proof.
  intros [<- Hrows]. induction Hrows as [|row grid Hrow _ IH]; [done|].
  simpl. rewrite length_app, Hrow, IH. lia.
Qed.

Lemma valid_pixels_concat image :
  valid_pixels image → Forall valid_pixel (concat (pixel_data image)).
Proof. intros H. by apply Forall_concat. Qed.

(** [histogram] on a valid image, as a fold. *)
Lemma histogram_as_fold image channel :
  valid_grid image → 0 <= channel <= 3 →
  histogram image channel
  = hist ← fold_opt (histogram_step channel) (replicate 256 0)
             (concat (pixel_data image));
    Some (Some hist, []).
Proof.
  intros Hgrid Hch. unfold histogram.
  replace (channel <? 0) with false by lia.
  replace (channel >? 3) with false by lia. simpl.
  by rewrite (for_pixels_fold _ (pixel_data image) _
                (histogram_step channel)).
Qed.

Ltac solve_valid :=
  repeat match goal with
         | |- valid_grid _ => split; simpl
         | |- valid_pixels _ => unfold valid_pixels; simpl
         | |- valid_dimensions _ => split; simpl
         | |- valid_pixel _ => unfold valid_pixel, is_byte; simpl
         | |- Forall _ _ => constructor
         | |- _ ∧ _ => split
         | |- _ => reflexivity || lia
                   || (unfold Channel.A, Channel.B, Channel.G, Channel.R; lia)
         end.

(** C9.  On an image with a valid pixel grid and for a channel from 0 to
    3, [histogram] returns an array of 256 counts; the counts add up to
    [width * height], and the count at index [v] is the number of pixels
    whose selected channel holds [v]: every pixel is counted once, in the
    bin of its own value. *)
Theorem histogram_counts_every_pixel image channel :
  valid_grid image → valid_pixels image →
  valid_dimensions (bmp_header image) → 0 <= channel <= 3 →
  ∃ hist, histogram image channel = Some (Some hist, [])
          ∧ length hist = 256%nat
          ∧ sum_counts hist
            = width (bmp_header image) * height (bmp_header image)
          ∧ ∀ v, 0 <= v < 256 →
                 hist !! Z.to_nat v
                 = Some (count_pixels (channel_is channel v) image).
Proof.
  intros Hgrid Hpx [Hw Hh] Hch.
  pose proof (length_concat_shape _ _ _ (valid_grid_shape _ Hgrid)) as Hlen.
  destruct (histogram_fold channel (concat (pixel_data image))
              (replicate 256 0) 0)
    as (hist & Hfold & Hl & Hsum & Hget).
  - done.
  - by apply valid_pixels_concat.
  - by rewrite length_replicate.
  - intros k c Hk. apply lookup_replicate in Hk as [-> _]. lia.
  - rewrite Hlen. nia.
  - exists hist. rewrite histogram_as_fold, Hfold by done.
    split; [done|]. split; [done|]. split.
    + rewrite Hsum, sum_counts_replicate_0, Hlen. lia.
    + intros v Hv. rewrite (Hget v Hv).
      rewrite lookup_replicate_2 by lia. done.
Qed.

Lemma histogram_counts_every_pixel_witness :
  ∃ hist, histogram sample_2x2 Channel.A = Some (Some hist, [])
          ∧ length hist = 256%nat
          ∧ sum_counts hist = 2 * 2
          ∧ hist !! 2%nat = Some 1.
Proof.
  destruct (histogram_counts_every_pixel sample_2x2 Channel.A)
    as (hist & Hrun & Hlen & Hsum & Hbins); [solve_valid..|].
  exists hist. split; [exact Hrun|]. split; [exact Hlen|].
  split; [exact Hsum|]. apply (Hbins 2). lia.
Defined.

(** ** Colour conversions *)

Lemma store_px_set gr i j p upd :
  get_px gr i j = Some p → store_px gr i j upd = set_px gr i j (upd p).
Proof. intros Hp. unfold store_px. by rewrite Hp. Qed.

Lemma set_px_get gr i j q gr' :
  set_px gr i j q = Some gr' → get_px gr' i j = Some q.
Proof.
  intros Hset. rewrite (get_px_set_px _ _ _ _ _ _ _ Hset).
  by rewrite decide_True.
Qed.

Lemma set_px_twice gr i j q q' gr' :
  set_px gr i j q = Some gr' → set_px gr' i j q' = set_px gr i j q'.
Proof.
  unfold set_px. destruct (gr !! i) as [row|] eqn:Hrow; [|done]. simpl.
  case_decide as Hj; [|done]. intros [= <-].
  rewrite list_lookup_insert_eq by by eapply lookup_lt_Some. simpl.
  rewrite length_insert, !decide_True by done.
  by rewrite list_insert_insert_eq, list_insert_insert_eq.
Qed.

Lemma get_px_set_px_Some gr i j p q :
  get_px gr i j = Some p → is_Some (set_px gr i j q).
Proof.
  unfold get_px, set_px. destruct (gr !! i) as [row|]; [|done]. simpl.
  intros Hj. apply lookup_lt_Some in Hj. by rewrite decide_True.
Qed.

Lemma rgb2ycbcr_pixel_set gr i j p :
  get_px gr i j = Some p →
  rgb2ycbcr_pixel gr i j = set_px gr i j (rgb2ycbcr_value p).
Proof.
  intros Hp. unfold rgb2ycbcr_pixel. rewrite Hp. simpl.
  rewrite (store_px_set _ _ _ _ _ Hp).
  destruct (get_px_set_px_Some gr i j p
              (with_b p (px_b (rgb2ycbcr_value p)))) as [g1 H1]; [done|].
  unfold rgb2ycbcr_value in H1 at 1. simpl in H1. rewrite H1. simpl.
  rewrite (store_px_set _ _ _ _ _ (set_px_get _ _ _ _ _ H1)).
  rewrite (set_px_twice _ _ _ _ _ _ H1).
  destruct (get_px_set_px_Some gr i j p
              (with_g (with_b p (px_b (rgb2ycbcr_value p)))
                 (px_g (rgb2ycbcr_value p)))) as [g2 H2]; [done|].
  unfold rgb2ycbcr_value in H2 at 1 2. simpl in H2. rewrite H2. simpl.
  rewrite (store_px_set _ _ _ _ _ (set_px_get _ _ _ _ _ H2)).
  by rewrite (set_px_twice _ _ _ _ _ _ H2).
Qed.

Lemma ycbcr2rgb_pixel_set gr i j p :
  get_px gr i j = Some p →
  ycbcr2rgb_pixel gr i j = set_px gr i j (ycbcr2rgb_value p).
Proof.
  intros Hp. unfold ycbcr2rgb_pixel. rewrite Hp. simpl.
  rewrite (store_px_set _ _ _ _ _ Hp).
  destruct (get_px_set_px_Some gr i j p
              (with_r p (px_r (ycbcr2rgb_value p)))) as [g1 H1]; [done|].
  unfold ycbcr2rgb_value in H1 at 1. simpl in H1. rewrite H1. simpl.
  rewrite (store_px_set _ _ _ _ _ (set_px_get _ _ _ _ _ H1)).
  rewrite (set_px_twice _ _ _ _ _ _ H1).
  destruct (get_px_set_px_Some gr i j p
              (with_g (with_r p (px_r (ycbcr2rgb_value p)))
                 (px_g (ycbcr2rgb_value p)))) as [g2 H2]; [done|].
  unfold ycbcr2rgb_value in H2 at 1 2. simpl in H2. rewrite H2. simpl.
  rewrite (store_px_set _ _ _ _ _ (set_px_get _ _ _ _ _ H2)).
  by rewrite (set_px_twice _ _ _ _ _ _ H2).
Qed.

(** Both conversions rewrite every pixel by its own function. *)
Lemma rgb2ycbcr_pointwise image :
  valid_grid image →
  ∃ grid, rgb2ycbcr image
          = Some (0, mkImage (bmp_header image) grid (palette image))
          ∧ grid_shape grid (Z.to_nat (height (bmp_header image)))
                            (Z.to_nat (width (bmp_header image)))
          ∧ ∀ i j, get_px grid i j
                   = rgb2ycbcr_value <$> get_px (pixel_data image) i j.
Proof.
  intros Hgrid.
  destruct (for_pixels_update (bmp_header image) (pixel_data image)
              (λ i j grid, rgb2ycbcr_pixel grid i j)
              rgb2ycbcr_value (λ _, True))
    as (grid & Hrun & Hshape & Hget); [done|done| |].
  - intros gr i j p Hp _. by apply rgb2ycbcr_pixel_set.
  - exists grid. unfold rgb2ycbcr. by rewrite Hrun.
Qed.

Lemma ycbcr2rgb_pointwise image :
  valid_grid image →
  ∃ grid, ycbcr2rgb image
          = Some (0, mkImage (bmp_header image) grid (palette image))
          ∧ grid_shape grid (Z.to_nat (height (bmp_header image)))
                            (Z.to_nat (width (bmp_header image)))
          ∧ ∀ i j, get_px grid i j
                   = ycbcr2rgb_value <$> get_px (pixel_data image) i j.
Proof.
  intros Hgrid.
  destruct (for_pixels_update (bmp_header image) (pixel_data image)
              (λ i j grid, ycbcr2rgb_pixel grid i j)
              ycbcr2rgb_value (λ _, True))
    as (grid & Hrun & Hshape & Hget); [done|done| |].
  - intros gr i j p Hp _. by apply ycbcr2rgb_pixel_set.
  - exists grid. unfold ycbcr2rgb. by rewrite Hrun.
Qed.

(** C8.  On every image with a valid grid, [rgb2ycbcr] and [ycbcr2rgb]
    return 0 and leave the header, the palette and the fourth byte
    (index or alpha) of every pixel as they were: only the blue, green
    and red bytes are written. *)
Theorem colour_conversions_keep_the_rest image :
  valid_grid image →
  (∃ image', rgb2ycbcr image = Some (0, image')
             ∧ only_colours_changed image image')
  ∧ (∃ image', ycbcr2rgb image = Some (0, image')
               ∧ only_colours_changed image image').
Proof.
  intros Hgrid. split.
  - destruct (rgb2ycbcr_pointwise image Hgrid) as (grid & Hrun & Hs & Hget).
    eexists. split; [exact Hrun|]. repeat split; try done.
    + apply Hs.
    + apply Hs.
    + intros i j p Hp. simpl. rewrite Hget, Hp. simpl. eauto.
  - destruct (ycbcr2rgb_pointwise image Hgrid) as (grid & Hrun & Hs & Hget).
    eexists. split; [exact Hrun|]. repeat split; try done.
    + apply Hs.
    + apply Hs.
    + intros i j p Hp. simpl. rewrite Hget, Hp. simpl. eauto.
Qed.

Lemma colour_conversions_keep_the_rest_witness :
  (∃ image', rgb2ycbcr sample_colours = Some (0, image')
             ∧ only_colours_changed sample_colours image')
  ∧ (∃ image', ycbcr2rgb sample_colours = Some (0, image')
               ∧ only_colours_changed sample_colours image').
Proof.
  apply (colour_conversions_keep_the_rest sample_colours); solve_valid.
Defined.

(** ** Equalization *)

Lemma sum_counts_app (l1 l2 : list Z) :
  sum_counts (l1 ++ l2) = sum_counts l1 + sum_counts l2.
Proof.
  induction l1 as [|a l1 IH]; [done|]. unfold sum_counts in *. simpl.
  rewrite IH. lia.
Qed.

Lemma sum_counts_take_S (l : list Z) (n : nat) (a : Z) :
  l !! n = Some a →
  sum_counts (take (Datatypes.S n) l) = sum_counts (take n l) + a.
Proof.
  intros Hn. rewrite (take_S_r _ _ _ Hn), sum_counts_app.
  unfold sum_counts. simpl. lia.
Qed.

Lemma array_get_nat {T : Type} (a : list T) (n : nat) :
  array_get a (Z.of_nat n) = a !! n.
Proof.
  unfold array_get. rewrite (proj2 (Z.ltb_ge _ _)) by lia.
  by rewrite Nat2Z.id.
Qed.

Lemma array_set_nat {T : Type} (a : list T) (n : nat) (v : T) :
  (n < length a)%nat → array_set a (Z.of_nat n) v = Some (<[n := v]> a).
Proof.
  intros Hn. unfold array_set.
  rewrite (proj2 (Z.ltb_ge _ _)), (proj2 (Z.leb_gt _ _)) by lia.
  simpl. by rewrite Nat2Z.id.
Qed.

(** The loop of the cumulative distribution computes the prefix sums of
    the histogram, as long as they fit in an [unsigned long]. *)
Lemma equalize_cdf_prefix_sums hist :
  length hist = 256%nat →
  (∀ n, (n ≤ 256)%nat → 0 <= sum_counts (take n hist) < 2 ^ 64) →
  ∃ cdf, equalize_cdf hist = Some cdf
         ∧ length cdf = 256%nat
         ∧ ∀ v, (v < 256)%nat →
                cdf !! v = Some (sum_counts (take (Datatypes.S v) hist)).
Proof.
  intros Hlen Hfit. unfold equalize_cdf.
  destruct (lookup_lt_is_Some_2 hist 0) as [h0 Hh0]; [lia|].
  change (array_get hist 0) with (hist !! 0%nat). rewrite Hh0.
  change (Some h0 ≫= ?f) with (f h0). cbv beta.
  change (array_set (replicate 256 0) 0 h0)
    with (Some (<[0%nat := h0]> (replicate 256 0))).
  change (Some ?a ≫= ?f) with (f a). cbv beta.
  pose (Inv := λ (i : nat) (cdf : list Z),
    length cdf = 256%nat
    ∧ ∀ v, (v < i)%nat →
           cdf !! v = Some (sum_counts (take (Datatypes.S v) hist))).
  match goal with
  | |- ∃ cdf, for_range 1 255 ?body ?s = _ ∧ _ =>
      destruct (for_range_inv Inv body 1 255 s) as (cdf & Hrun & Hl & Hget)
  end.
  - split; [by rewrite length_insert, length_replicate|].
    intros v Hv. assert (v = 0%nat) as -> by lia.
    rewrite list_lookup_insert_eq by (rewrite length_replicate; lia).
    rewrite (sum_counts_take_S _ _ _ Hh0). done.
  - intros i cdf Hi [Hl Hget].
    replace (Z.of_nat i - 1) with (Z.of_nat (i - 1)) by lia.
    rewrite !array_get_nat, (Hget (i - 1)%nat) by lia. simpl.
    replace (Datatypes.S (i - 1)) with i by lia.
    destruct (lookup_lt_is_Some_2 hist i) as [hi Hhi]; [lia|].
    rewrite Hhi. simpl. rewrite array_set_nat by lia.
    pose proof (sum_counts_take_S _ _ _ Hhi) as Hsum.
    pose proof (Hfit (Datatypes.S i)) as Hfit'.
    eexists. split; [done|]. split; [by rewrite length_insert|].
    intros v Hv. destruct (decide (v = i)) as [->|Hne].
    + rewrite list_lookup_insert_eq by lia. f_equal.
      unfold uint64. rewrite Z.mod_small; lia.
    + rewrite list_lookup_insert_ne by done. apply Hget. lia.
  - exists cdf. split; [done|]. split; [done|].
    intros v Hv. apply Hget. lia.
Qed.

Lemma count_in_split_le channel v pixels :
  Forall valid_pixel pixels → 0 <= channel <= 3 →
  count_in (channel_le channel v) pixels
  = count_in (channel_le channel (v - 1)) pixels
    + count_in (channel_is channel v) pixels.
Proof.
  intros Hpx Hch. induction Hpx as [|p pixels Hp _ IH]; [done|].
  rewrite !count_in_cons, IH. unfold channel_le, channel_is.
  destruct (get_channel_is_Some p channel Hch) as [u ->].
  destruct (Z.leb_spec u v), (Z.leb_spec u (v - 1)), (Z.eqb_spec u v); lia.
Qed.

Lemma count_in_le_none channel v pixels :
  Forall valid_pixel pixels → v < 0 →
  count_in (channel_le channel v) pixels = 0.
Proof.
  intros Hpx Hv. induction Hpx as [|p pixels Hp _ IH]; [done|].
  rewrite count_in_cons, IH. unfold channel_le.
  destruct (get_channel p channel) as [u|] eqn:Hu; [|done].
  apply (get_channel_byte _ _ _ Hp) in Hu. red in Hu.
  destruct (Z.leb_spec u v); lia.
Qed.

(** The prefix sums of a histogram are the cumulative counts. *)
Lemma prefix_sum_counts channel pixels hist :
  Forall valid_pixel pixels → 0 <= channel <= 3 →
  length hist = 256%nat →
  (∀ v, 0 <= v < 256 →
        hist !! Z.to_nat v = Some (count_in (channel_is channel v) pixels)) →
  ∀ n, (n ≤ 256)%nat →
       sum_counts (take n hist)
       = count_in (channel_le channel (Z.of_nat n - 1)) pixels.
Proof.
  intros Hpx Hch Hlen Hhist n. induction n as [|n IH]; intros Hn.
  - simpl. by rewrite count_in_le_none.
  - pose proof (Hhist (Z.of_nat n)) as Hn'. rewrite Nat2Z.id in Hn'.
    rewrite (sum_counts_take_S _ _ _ (Hn' ltac:(lia))), IH by lia.
    rewrite (count_in_split_le channel (Z.of_nat (Datatypes.S n) - 1))
      by done.
    do 2 f_equal; f_equal; lia.
Qed.

Lemma scale2_pos n d k :
  0 <= n → 0 < d → 0 <= (scale2 n d k).1 ∧ 0 < (scale2 n d k).2.
Proof.
  intros Hn Hd. unfold scale2. destruct (0 <=? k) eqn:Hk; simpl.
  - split; [|done]. apply Z.mul_nonneg_nonneg; [done|].
    apply Z.pow_nonneg. lia.
  - split; [done|]. apply Z.mul_pos_pos; [done|].
    apply Z.pow_pos_nonneg; lia.
Qed.

Lemma round_half_even_nonneg n d : 0 <= n → 0 < d → 0 <= round_half_even n d.
Proof.
  intros Hn Hd. unfold round_half_even.
  pose proof (Z.div_pos n d Hn Hd). repeat case_match; lia.
Qed.

Lemma round_binary32_nonneg n d :
  0 <= (round_binary32 n d).1 ∧ 0 < (round_binary32 n d).2.
Proof.
  unfold round_binary32. destruct ((n <=? 0) || (d <=? 0)) eqn:Hnd.
  - simpl. lia.
  - apply orb_false_iff in Hnd as [Hn Hd].
    destruct (scale2 n d (23 - floor_log2 n d)) as [n' d'] eqn:Hs.
    pose proof (scale2_pos n d (23 - floor_log2 n d)) as Hp.
    rewrite Hs in Hp. simpl in Hp.
    apply scale2_pos; [|lia].
    apply round_half_even_nonneg; lia.
Qed.

Lemma float32_trunc_mul_nonneg a b : 0 <= float32_trunc (float32_mul a b).
Proof.
  unfold float32_trunc, float32_mul.
  destruct (round_binary32_nonneg (a.1 * b.1) (a.2 * b.2)).
  by apply Z.div_pos.
Qed.

Lemma get_channel_set_channel p channel v p' ch :
  set_channel p channel v = Some p' →
  get_channel p' ch = if decide (ch = channel) then Some v
                      else get_channel p ch.
Proof.
  unfold set_channel, get_channel.
  repeat case_match; intros Heq; inversion Heq; subst; simpl;
    try done; lia.
Qed.

Lemma set_channel_is_Some p channel v :
  0 <= channel <= 3 → is_Some (set_channel p channel v).
Proof.
  intros Hc. unfold set_channel.
  repeat (case_match; [by eexists|]). exfalso. lia.
Qed.

Lemma valid_pixels_get_px image i j p :
  valid_pixels image → get_px (pixel_data image) i j = Some p →
  valid_pixel p.
Proof.
  unfold valid_pixels, get_px. intros Hall.
  destruct (pixel_data image !! i) as [row|] eqn:Hrow; [|done]. simpl.
  intros Hj. pose proof (Forall_lookup_1 _ _ _ _ Hall Hrow) as Hr.
  by apply (Forall_lookup_1 _ _ _ _ Hr Hj).
Qed.

Lemma equalize_coefficient_Some h :
  valid_dimensions h → width h * height h < 2 ^ 32 →
  equalize_coefficient h
  = Some (float32_div (float32_of_int 256)
            (float32_of_int (width h * height h))).
Proof.
  intros [Hw Hh] Harea. unfold equalize_coefficient, uint32.
  rewrite Z.mod_small by nia.
  destruct (Z.eqb_spec (width h * height h) 0); [nia|done].
Qed.

(** The histogram and the cumulative distribution that [equalize]
    works with on a valid image. *)
Lemma equalize_tables image channel :
  valid_grid image → valid_pixels image →
  valid_dimensions (bmp_header image) → 0 <= channel <= 3 →
  ∃ hist cdf,
    histogram image channel = Some (Some hist, [])
    ∧ equalize_cdf hist = Some cdf
    ∧ ∀ v, 0 <= v < 256 →
           cdf !! Z.to_nat v = Some (cdf_of image channel v).
Proof.
  intros Hgrid Hpx [Hw Hh] Hch.
  pose proof (length_concat_shape _ _ _ (valid_grid_shape _ Hgrid)) as Hlen.
  pose proof (valid_pixels_concat _ Hpx) as Hall.
  destruct (histogram_fold channel (concat (pixel_data image))
              (replicate 256 0) 0)
    as (hist & Hfold & Hl & _ & Hget).
  { done. }
  { done. }
  { by rewrite length_replicate. }
  { intros k c Hk. apply lookup_replicate in Hk as [-> _]. lia. }
  { rewrite Hlen. nia. }
  assert (∀ v, 0 <= v < 256 →
               hist !! Z.to_nat v
               = Some (count_in (channel_is channel v)
                         (concat (pixel_data image)))) as Hhist.
  { intros v Hv. rewrite (Hget v Hv), lookup_replicate_2 by lia. done. }
  pose proof (prefix_sum_counts channel _ hist Hall Hch Hl Hhist) as Hsum.
  destruct (equalize_cdf_prefix_sums hist Hl) as (cdf & Hcdf & Hlc & Hc).
  { intros n Hn. rewrite (Hsum n Hn).
    pose proof (count_in_bounds (channel_le channel (Z.of_nat n - 1))
                  (concat (pixel_data image))).
    rewrite Hlen in *. nia. }
  exists hist, cdf. rewrite histogram_as_fold, Hfold by done.
  split; [done|]. split; [done|].
  intros v Hv. rewrite Hc by lia. rewrite Hsum by lia.
  replace (Z.of_nat (Datatypes.S (Z.to_nat v)) - 1) with v by lia. done.
Qed.

(** C6, amended.  On a valid image of fewer than [2 ^ 32] pixels and
    for a channel from 0 to 3, [equalize] returns 0, keeps the header,
    the palette and the other channels, and replaces the channel value
    [v] of every pixel by the integer part of [c * CDF[v]], computed in
    single precision with [c = 256 / area], whenever that integer part
    is below 256.  [CDF[v]] counts the pixels of the image whose channel
    holds at most [v]. *)
Theorem equalize_truncates_256_over_area image channel :
  valid_grid image → valid_pixels image →
  valid_dimensions (bmp_header image) →
  width (bmp_header image) * height (bmp_header image) < 2 ^ 32 →
  0 <= channel <= 3 →
  ∃ image',
    equalize image channel = Some (0, image', [])
    ∧ bmp_header image' = bmp_header image
    ∧ palette image' = palette image
    ∧ valid_grid image'
    ∧ ∀ i j p, get_px (pixel_data image) i j = Some p →
        ∃ v p',
          get_channel p channel = Some v
          ∧ get_px (pixel_data image') i j = Some p'
          ∧ (∀ ch, ch ≠ channel → get_channel p' ch = get_channel p ch)
          ∧ (float32_trunc
               (equalize_value (bmp_header image) (cdf_of image channel v))
             < 256 →
             get_channel p' channel
             = Some (float32_trunc
                       (equalize_value (bmp_header image)
                          (cdf_of image channel v)))).
Proof.
  intros Hgrid Hpx Hdim Harea Hch.
  destruct (equalize_tables image channel)
    as (hist & cdf & Hhist & Hcdf & Hc); try done.
  set (c := equalize_coefficient (bmp_header image)).
  assert (∀ p, valid_pixel p →
               ∃ v p', get_channel p channel = Some v
                 ∧ equalize_pixel c cdf channel p = Some p'
                 ∧ set_channel p channel
                     (float32_to_uint8
                        (equalize_value (bmp_header image)
                           (cdf_of image channel v))) = Some p') as Hpixel.
  { intros p Hp. destruct (get_channel_is_Some p channel Hch) as [v Hv].
    pose proof (get_channel_byte _ _ _ Hp Hv) as Hbyte. red in Hbyte.
    destruct (set_channel_is_Some p channel
                (float32_to_uint8
                   (equalize_value (bmp_header image)
                      (cdf_of image channel v))) Hch) as [p' Hp'].
    exists v, p'. split; [done|]. split; [|done].
    unfold equalize_pixel, array_get. rewrite Hv. simpl.
    rewrite (proj2 (Z.ltb_ge _ _)) by lia. rewrite Hc by lia. simpl.
    subst c. rewrite equalize_coefficient_Some by done. simpl. done. }
  destruct (for_pixels_update (bmp_header image) (pixel_data image)
              (λ i j grid,
                 p ← get_px grid i j;
                 p' ← equalize_pixel c cdf channel p;
                 set_px grid i j p')
              (equalize_pixel_total c cdf channel) valid_pixel)
    as (grid & Hrun & Hshape & Hget).
  - done.
  - intros i j p Hp. by eapply valid_pixels_get_px.
  - intros gr i j p Hp Hvalid. rewrite Hp. simpl.
    destruct (Hpixel p Hvalid) as (v & p' & _ & Heq & _).
    unfold equalize_pixel_total. rewrite Heq. done.
  - exists (mkImage (bmp_header image) grid (palette image)).
    split.
    { unfold equalize. fold c.
      rewrite (proj2 (Z.ltb_ge _ _)) by lia.
      replace (channel >? 3) with false by lia. simpl.
      rewrite Hhist. simpl. rewrite Hcdf. simpl. rewrite Hrun. done. }
    split; [done|]. split; [done|]. split; [done|].
    intros i j p Hp. simpl. rewrite Hget, Hp. simpl.
    destruct (Hpixel p (valid_pixels_get_px _ _ _ _ Hpx Hp))
      as (v & p' & Hv & Heq & Hset).
    exists v, p'. split; [done|]. split.
    { unfold equalize_pixel_total. by rewrite Heq. }
    split.
    + intros ch Hne. rewrite (get_channel_set_channel _ _ _ _ _ Hset).
      by rewrite decide_False.
    + intros Hlt. rewrite (get_channel_set_channel _ _ _ _ _ Hset).
      rewrite decide_True by done. f_equal.
      unfold float32_to_uint8, uint8. apply Z.mod_small.
      split; [|done]. apply float32_trunc_mul_nonneg.
Qed.

Lemma equalize_truncates_256_over_area_witness :
  ∃ image' p',
    equalize sample_2x2 Channel.A = Some (0, image', [])
    ∧ bmp_header image' = bmp_header sample_2x2
    ∧ palette image' = palette sample_2x2
    ∧ valid_grid image'
    ∧ get_px (pixel_data image') 1 0 = Some p'
    ∧ get_channel p' Channel.A = Some 192.
Proof.
  destruct (equalize_truncates_256_over_area sample_2x2 Channel.A)
    as (image' & Hrun & Hh & Hp & Hgrid & Hpixels); [solve_valid..|].
  destruct (Hpixels 1%nat 0%nat (index_pixel 2) eq_refl)
    as (v & p' & Hv & Hget & _ & Hval).
  injection Hv as <-.
  exists image', p'. repeat (split; [assumption|]).
  apply Hval. vm_compute. reflexivity.
Defined.

(** The claim C6 as stated fails on the image of four pixels with the
    indices 0 to 3: the pixel of index 2 has three pixels at or below
    it, [equalize] stores [192 = 256 / 4 * 3] in it, and the rounded
    [255 / 4 * 3] is 191. *)
Lemma equalize_not_as_specified :
  ¬ equalize_as_specified sample_2x2 Channel.A.
Proof.
  intros (image' & Hrun & Hall).
  vm_compute in Hrun. injection Hrun as <-.
  destruct (Hall 1%nat 0%nat (index_pixel 2) eq_refl)
    as (v & p' & Hv & Hp' & Hval).
  vm_compute in Hv. injection Hv as <-.
  vm_compute in Hp'. injection Hp' as <-.
  vm_compute in Hval. discriminate.
Qed.

(** ** Steganographic channel *)

Lemma for_range_seq {S : Type} (body : nat → S → option S) lo n s :
  for_range lo n body s = fold_opt (λ s k, body k s) s (seq lo n).
Proof.
  revert lo s. induction n as [|n IH]; intros lo s; simpl; [done|].
  destruct (body lo s) as [s'|]; simpl; [apply IH|done].
Qed.

Lemma fold_opt_map {S T U : Type} (step : S → U → option S) (f : T → U)
    (l : list T) s :
  fold_opt step s (map f l) = fold_opt (λ s a, step s (f a)) s l.
Proof.
  revert s. induction l as [|a l IH]; intros s; simpl; [done|].
  destruct (step s (f a)) as [s'|]; simpl; [apply IH|done].
Qed.

Lemma fold_opt_flat_map {S T U : Type} (step : S → U → option S)
    (f : T → list U) (l : list T) s :
  fold_opt (λ s a, fold_opt step s (f a)) s l
  = fold_opt step s (flat_map f l).
Proof.
  revert s. induction l as [|a l IH]; intros s; simpl; [done|].
  rewrite fold_opt_app.
  destruct (fold_opt step s (f a)) as [s'|]; simpl; [apply IH|done].
Qed.

Lemma bit_of_div_mod v k : bit_of v k = v / 2 ^ Z.of_nat k mod 2.
Proof.
  unfold bit_of. rewrite Z.shiftr_div_pow2 by lia.
  change 1 with (Z.ones 1). by rewrite Z.land_ones by lia.
Qed.

Lemma bit_of_bool v k : bit_of v k = 0 ∨ bit_of v k = 1.
Proof.
  rewrite bit_of_div_mod.
  pose proof (Z.mod_pos_bound (v / 2 ^ Z.of_nat k) 2 ltac:(lia)). lia.
Qed.

(** The low [k + 1] bits are the low [k] bits and bit [k]. *)
Lemma mod_pow2_succ v k :
  v mod 2 ^ Z.of_nat (Datatypes.S k)
  = v mod 2 ^ Z.of_nat k + bit_of v k * 2 ^ Z.of_nat k.
Proof.
  rewrite bit_of_div_mod, Nat2Z.inj_succ, Z.pow_succ_r by lia.
  assert (0 < 2 ^ Z.of_nat k) by (apply Z.pow_pos_nonneg; lia).
  rewrite (Z.mul_comm 2), Z.rem_mul_r by lia. lia.
Qed.

Section Cursor.
Variables (w : Z) (wn hn : nat).
Hypothesis Hw : w = Z.of_nat wn.
Hypothesis Hpos : (0 < wn)%nat.

Lemma cursor_of_parts n :
  ∃ i j ch, cursor_of w n = (i, j, ch)
            ∧ (j < wn)%nat ∧ 0 <= ch < 3
            ∧ Z.of_nat n = 3 * (w * Z.of_nat i + Z.of_nat j) + ch.
Proof.
  unfold cursor_of. eexists _, _, _. split; [done|].
  assert (0 < w) by lia.
  assert (0 <= Z.of_nat n / 3) by (apply Z.div_pos; lia).
  pose proof (Z.mod_pos_bound (Z.of_nat n / 3) w ltac:(lia)).
  pose proof (Z.mod_pos_bound (Z.of_nat n) 3 ltac:(lia)).
  pose proof (Z.div_mod (Z.of_nat n) 3 ltac:(lia)).
  rewrite <- Z.div_div by lia.
  pose proof (Z.div_mod (Z.of_nat n / 3) w ltac:(lia)).
  pose proof (Z.div_pos (Z.of_nat n / 3) w ltac:(lia) ltac:(lia)).
  rewrite !Z2Nat.id by lia.
  repeat split; lia.
Qed.

Lemma unit_index_cursor_of n : unit_index w (cursor_of w n) = Z.of_nat n.
Proof.
  destruct (cursor_of_parts n) as (i & j & ch & -> & _ & _ & Heq).
  unfold unit_index. simpl. lia.
Qed.

Lemma cursor_of_inj n m : cursor_of w n = cursor_of w m → n = m.
Proof.
  intros Heq. apply Nat2Z.inj.
  by rewrite <- (unit_index_cursor_of n), <- (unit_index_cursor_of m), Heq.
Qed.

Lemma cursor_of_unique n i j ch :
  (j < wn)%nat → 0 <= ch < 3 →
  Z.of_nat n = 3 * (w * Z.of_nat i + Z.of_nat j) + ch →
  cursor_of w n = (i, j, ch).
Proof.
  intros Hj Hch Hn. unfold cursor_of.
  assert (Z.of_nat n / 3 = w * Z.of_nat i + Z.of_nat j) as Hq.
  { symmetry. apply (Z.div_unique _ _ _ ch); lia. }
  assert (Z.of_nat n mod 3 = ch) as ->.
  { symmetry. apply (Z.mod_unique _ _ (w * Z.of_nat i + Z.of_nat j)); lia. }
  rewrite <- Z.div_div, Hq by lia.
  assert ((w * Z.of_nat i + Z.of_nat j) / w = Z.of_nat i) as ->.
  { symmetry. apply (Z.div_unique _ _ _ (Z.of_nat j)); lia. }
  assert ((w * Z.of_nat i + Z.of_nat j) mod w = Z.of_nat j) as ->.
  { symmetry. apply (Z.mod_unique _ _ (Z.of_nat i)); lia. }
  by rewrite !Nat2Z.id.
Qed.

Lemma NEXT_cursor_of n : NEXT (cursor_of w n) w = cursor_of w (Datatypes.S n).
Proof.
  destruct (cursor_of_parts n) as (i & j & ch & -> & Hj & Hch & Heq).
  unfold NEXT. symmetry.
  destruct (Z.eqb_spec (ch + 1) 3) as [H3|H3].
  - destruct (Z.eqb_spec (Z.of_nat j + 1) w) as [Hjw|Hjw].
    + apply cursor_of_unique; lia.
    + apply cursor_of_unique; lia.
  - apply cursor_of_unique; lia.
Qed.

Lemma cursor_of_row n :
  Z.of_nat (cursor_of w n).1.1 < Z.of_nat hn ↔ (n < 3 * wn * hn)%nat.
Proof.
  destruct (cursor_of_parts n) as (i & j & ch & -> & Hj & Hch & Heq).
  simpl. nia.
Qed.

Lemma cursor_of_in_grid n :
  (n < 3 * wn * hn)%nat →
  ∃ i j ch, cursor_of w n = (i, j, ch)
            ∧ (i < hn)%nat ∧ (j < wn)%nat ∧ 0 <= ch < 3.
Proof.
  intros Hn. pose proof (proj2 (cursor_of_row n) Hn) as Hi.
  destruct (cursor_of_parts n) as (i & j & ch & Hc & Hj & Hch & Heq).
  rewrite Hc in Hi. simpl in Hi. exists i, j, ch.
  split; [done|]. repeat split; lia.
Qed.
End Cursor.

Lemma load_unit_store_unit grid cur v grid' cur' :
  store_unit grid cur v = Some grid' →
  load_unit grid' cur'
  = if decide (cur' = cur) then Some v else load_unit grid cur'.
Proof.
  destruct cur as [[i j] ch], cur' as [[i' j'] ch']. unfold store_unit, load_unit.
  destruct (get_px grid i j) as [p|] eqn:Hp; [|done]. simpl.
  destruct (set_channel p ch v) as [p'|] eqn:Hp'; [|done]. simpl.
  intros Hset. rewrite (get_px_set_px _ _ _ _ _ _ _ Hset).
  destruct (decide (i' = i ∧ j' = j)) as [[-> ->]|Hne].
  - simpl. rewrite (get_channel_set_channel _ _ _ _ _ Hp'), Hp. simpl.
    destruct (decide (ch' = ch)) as [->|Hch].
    + by rewrite decide_True.
    + rewrite decide_False; [done|]. by intros [= ?].
  - rewrite decide_False; [done|]. intros [= ? ? ?]. by apply Hne.
Qed.

Lemma store_unit_shape grid hn wn cur v grid' :
  grid_shape grid hn wn → store_unit grid cur v = Some grid' →
  grid_shape grid' hn wn.
Proof.
  destruct cur as [[i j] ch]. unfold store_unit. intros Hs.
  destruct (get_px grid i j) as [p|]; [|done]. simpl.
  destruct (set_channel p ch v) as [p'|]; [|done]. simpl.
  by apply set_px_shape.
Qed.

Lemma load_unit_is_Some grid hn wn i j ch :
  grid_shape grid hn wn → (i < hn)%nat → (j < wn)%nat → 0 <= ch < 3 →
  is_Some (load_unit grid (i, j, ch)).
Proof.
  intros Hs Hi Hj Hch. unfold load_unit.
  destruct (get_px_is_Some grid hn wn i j Hs Hi Hj) as [p ->]. simpl.
  apply get_channel_is_Some. lia.
Qed.

Lemma store_unit_is_Some grid hn wn i j ch v :
  grid_shape grid hn wn → (i < hn)%nat → (j < wn)%nat → 0 <= ch < 3 →
  is_Some (store_unit grid (i, j, ch) v).
Proof.
  intros Hs Hi Hj Hch. unfold store_unit.
  destruct (get_px_is_Some grid hn wn i j Hs Hi Hj) as [p ->]. simpl.
  destruct (set_channel_is_Some p ch v) as [p' ->]; [lia|]. simpl.
  destruct (set_px_Some grid hn wn i j p' Hs Hi Hj) as [grid' ->]. done.
Qed.

(** After [px[ch] += (px[ch] % 2 + bit) % 2] the byte has the parity
    of [bit]. *)
Lemma parity_written v bit :
  bit = 0 ∨ bit = 1 →
  uint8 (prevent_overflow v + (prevent_overflow v mod 2 + bit) mod 2) mod 2
  = bit.
Proof. intros Hbit. unfold uint8. change (2 ^ 8) with 256. div_lia. Qed.

Section Units.
Variables (w : Z) (wn hn : nat).
Hypothesis Hw : w = Z.of_nat wn.
Hypothesis Hpos : (0 < wn)%nat.

Lemma write_bit_spec grid n bit :
  grid_shape grid hn wn → (n < 3 * wn * hn)%nat → bit = 0 ∨ bit = 1 →
  ∃ grid' v,
    write_bit w bit (grid, cursor_of w n)
    = Some (grid', cursor_of w (Datatypes.S n))
    ∧ grid_shape grid' hn wn
    ∧ load_unit grid' (cursor_of w n) = Some v ∧ v mod 2 = bit
    ∧ ∀ m, m ≠ n →
           load_unit grid' (cursor_of w m) = load_unit grid (cursor_of w m).
Proof.
  intros Hs Hn Hbit. unfold write_bit.
  destruct (cursor_of_in_grid w wn hn Hw Hpos n Hn)
    as (i & j & ch & Hcur & Hi & Hj & Hch).
  rewrite <- (NEXT_cursor_of w wn Hw Hpos), Hcur.
  destruct (load_unit_is_Some grid hn wn i j ch Hs Hi Hj Hch) as [v Hv].
  rewrite Hv. cbn [mbind option_bind].
  destruct (store_unit_is_Some grid hn wn i j ch
              (uint8 (prevent_overflow v
                      + (prevent_overflow v mod 2 + bit) mod 2))
              Hs Hi Hj Hch) as [grid' Hst].
  rewrite Hst. cbn [mbind option_bind]. eexists _, _. split; [done|].
  split; [by eapply store_unit_shape|].
  split; [|split].
  - rewrite (load_unit_store_unit _ _ _ _ _ Hst). by rewrite decide_True.
  - by apply parity_written.
  - intros m Hm. rewrite (load_unit_store_unit _ _ _ _ _ Hst).
    rewrite decide_False; [done|]. rewrite <- Hcur.
    intros Heq. by apply (cursor_of_inj w wn Hw Hpos) in Heq.
Qed.

Lemma write_bits_spec bits : ∀ grid n,
  grid_shape grid hn wn → (n + length bits ≤ 3 * wn * hn)%nat →
  Forall (λ bit, bit = 0 ∨ bit = 1) bits →
  ∃ grid',
    write_bits w bits (grid, cursor_of w n)
    = Some (grid', cursor_of w (n + length bits))
    ∧ grid_shape grid' hn wn
    ∧ (∀ k bit, bits !! k = Some bit →
                ∃ v, load_unit grid' (cursor_of w (n + k)) = Some v
                     ∧ v mod 2 = bit)
    ∧ ∀ m, (m < n ∨ n + length bits ≤ m)%nat →
           load_unit grid' (cursor_of w m) = load_unit grid (cursor_of w m).
Proof.
  induction bits as [|bit bits IH]; intros grid n Hs Hn Hbits.
  - exists grid. simpl. rewrite Nat.add_0_r.
    split; [done|]. split; [done|]. split; [|done].
    intros k bit Hk. by rewrite lookup_nil in Hk.
  - apply Forall_cons_1 in Hbits as [Hbit Hbits]. simpl in Hn.
    destruct (write_bit_spec grid n bit Hs ltac:(lia) Hbit)
      as (grid1 & v & Hw1 & Hs1 & Hv & Hpar & Hother).
    destruct (IH grid1 (Datatypes.S n) Hs1 ltac:(lia) Hbits)
      as (grid2 & Hw2 & Hs2 & Hset & Hkeep).
    exists grid2. unfold write_bits in *. cbn [fold_opt]. rewrite Hw1.
    cbn [mbind option_bind]. rewrite Hw2.
    split; [do 3 f_equal; simpl; lia|].
    split; [done|]. split.
    + intros [|k] b Hk; simpl in Hk.
      * injection Hk as <-. exists v. rewrite Nat.add_0_r.
        rewrite Hkeep by lia. done.
      * destruct (Hset k b Hk) as (v' & Hv' & Hp'). exists v'.
        by replace (n + Datatypes.S k)%nat with (Datatypes.S n + k)%nat
          by lia.
    + intros m Hm. simpl in Hm. rewrite Hkeep by lia. apply Hother. lia.
Qed.

Lemma fill_random_spec rand h fuel : ∀ grid n c,
  height h = Z.of_nat hn → width h = w →
  grid_shape grid hn wn → (n ≤ 3 * wn * hn)%nat →
  (3 * wn * hn - n ≤ fuel)%nat →
  ∃ st, fill_random fuel rand c h (grid, cursor_of w n) = Some st
        ∧ grid_shape st.1 hn wn
        ∧ ∀ m, (m < n)%nat →
               load_unit st.1 (cursor_of w m) = load_unit grid (cursor_of w m).
Proof.
  induction fuel as [|fuel IH]; intros grid n c Hh Hwd Hs Hn Hfuel.
  - assert (n = 3 * wn * hn)%nat as -> by lia.
    exists (grid, cursor_of w (3 * wn * hn)). cbn [fill_random].
    pose proof (cursor_of_row w wn hn Hw Hpos (3 * wn * hn)) as Hrow.
    rewrite Hh. rewrite (proj2 (Z.ltb_ge _ _)); [done|]. lia.
  - cbn [fill_random]. rewrite Hh.
    pose proof (cursor_of_row w wn hn Hw Hpos n) as Hrow.
    destruct (Z.ltb_spec (Z.of_nat (cursor_of w n).1.1) (Z.of_nat hn))
      as [Hlt|Hge].
    + apply Hrow in Hlt.
      destruct (cursor_of_in_grid w wn hn Hw Hpos n Hlt)
        as (i & j & ch & Hcur & Hi & Hj & Hch).
      rewrite Hwd, Hcur.
      destruct (load_unit_is_Some grid hn wn i j ch Hs Hi Hj Hch) as [v Hv].
      rewrite Hv. cbn [mbind option_bind].
      destruct (store_unit_is_Some grid hn wn i j ch
                  (uint8 (prevent_overflow v + Z.rem (rand c) 2))
                  Hs Hi Hj Hch) as [grid' Hst].
      rewrite Hst. cbn [mbind option_bind]. rewrite <- Hcur, (NEXT_cursor_of w wn Hw Hpos).
      destruct (IH grid' (Datatypes.S n) (Datatypes.S c) Hh Hwd)
        as (st & Hrun & Hs' & Hkeep).
      * by eapply store_unit_shape.
      * lia.
      * lia.
      * exists st. split; [done|]. split; [done|].
        intros m Hm. rewrite Hkeep by lia.
        rewrite (load_unit_store_unit _ _ _ _ _ Hst).
        rewrite decide_False; [done|]. rewrite <- Hcur.
        intros Heq. apply (cursor_of_inj w wn Hw Hpos) in Heq. lia.
    + exists (grid, cursor_of w n). done.
Qed.
End Units.

Lemma fold_opt_ext {S T : Type} (step1 step2 : S → T → option S)
    (l : list T) s :
  (∀ s' a, step1 s' a = step2 s' a) →
  fold_opt step1 s l = fold_opt step2 s l.
Proof.
  intros Hext. revert s. induction l as [|a l IH]; intros s; simpl; [done|].
  rewrite Hext. destruct (step2 s a) as [s'|]; simpl; [apply IH|done].
Qed.

Lemma length_len_bits len : length (len_bits len) = 32%nat.
Proof. unfold len_bits. by rewrite length_map, length_seq. Qed.

Lemma length_char_bits c : length (char_bits c) = 8%nat.
Proof. unfold char_bits. by rewrite length_map, length_seq. Qed.

Lemma lookup_len_bits len k :
  (k < 32)%nat → len_bits len !! k = Some (bit_of len k).
Proof.
  intros Hk. unfold len_bits. change (Z.to_nat STEG_LEN) with 32%nat.
  rewrite list_lookup_fmap, lookup_seq_lt by lia. done.
Qed.

Lemma lookup_char_bits c l :
  (l < 8)%nat → char_bits c !! l = Some (bit_of c l).
Proof.
  intros Hl. unfold char_bits. change (Z.to_nat CHAR_BIT) with 8%nat.
  rewrite list_lookup_fmap, lookup_seq_lt by lia. done.
Qed.

Lemma length_flat_char_bits chars :
  length (flat_map char_bits chars) = (8 * length chars)%nat.
Proof.
  induction chars as [|c chars IH]; [done|]. cbn [flat_map].
  rewrite length_app, length_char_bits, IH. simpl. lia.
Qed.

Lemma lookup_flat_char_bits chars : ∀ a c l,
  chars !! a = Some c → (l < 8)%nat →
  flat_map char_bits chars !! (8 * a + l)%nat = Some (bit_of c l).
Proof.
  induction chars as [|c0 chars IH]; intros a c l Ha Hl; [done|].
  cbn [flat_map]. destruct a as [|a]; simpl in Ha.
  - injection Ha as ->. rewrite lookup_app_l by (rewrite length_char_bits; lia).
    replace (8 * 0 + l)%nat with l by lia. by apply lookup_char_bits.
  - rewrite lookup_app_r by (rewrite length_char_bits; lia).
    rewrite length_char_bits.
    replace (8 * Datatypes.S a + l - 8)%nat with (8 * a + l)%nat by lia.
    by apply IH.
Qed.

Lemma message_bits_len string k :
  (k < 32)%nat →
  message_bits string !! k
  = Some (bit_of (Z.of_nat (length string) + 1) k).
Proof.
  intros Hk. unfold message_bits.
  rewrite lookup_app_l by (rewrite length_len_bits; lia).
  by apply lookup_len_bits.
Qed.

Lemma message_bits_char string a c l :
  (string ++ [0]) !! a = Some c → (l < 8)%nat →
  message_bits string !! (32 + 8 * a + l)%nat = Some (bit_of c l).
Proof.
  intros Ha Hl. unfold message_bits.
  rewrite lookup_app_r by (rewrite length_len_bits; lia).
  rewrite length_len_bits.
  replace (32 + 8 * a + l - 32)%nat with (8 * a + l)%nat by lia.
  by apply lookup_flat_char_bits.
Qed.

Lemma length_message_bits string :
  length (message_bits string) = (32 + 8 * (length string + 1))%nat.
Proof.
  unfold message_bits.
  rewrite length_app, length_len_bits, length_flat_char_bits, length_app.
  simpl. lia.
Qed.

Lemma message_bits_bool string :
  Forall (λ bit, bit = 0 ∨ bit = 1) (message_bits string).
Proof.
  unfold message_bits. apply Forall_app. split.
  - unfold len_bits. apply Forall_fmap, Forall_forall. intros k _.
    apply bit_of_bool.
  - apply Forall_flat_map, Forall_forall. intros c _.
    unfold char_bits. apply Forall_fmap, Forall_forall. intros k _.
    apply bit_of_bool.
Qed.

(** The two writing loops of [steganography_write] send the bits of
    the message, one [write_bit] each. *)
Lemma write_loops_as_bits w string st :
  (st1 ← for_range 0 (Z.to_nat STEG_LEN) (λ k st,
            write_bit w
              (Z.land (Z.shiftr (Z.of_nat (length string) + 1) (Z.of_nat k))
                 1) st) st;
   for_range 0 (length string + 1) (λ k st,
     c ← string_at string k;
     for_range 0 (Z.to_nat CHAR_BIT) (λ l st,
       write_bit w (Z.land (Z.shiftr c (Z.of_nat l)) 1) st) st) st1)
  = write_bits w (message_bits string) st.
Proof.
  unfold write_bits, message_bits. rewrite fold_opt_app.
  assert (∀ v n s,
            for_range 0 n (λ k st,
              write_bit w (Z.land (Z.shiftr v (Z.of_nat k)) 1) st) s
            = fold_opt (λ st bit, write_bit w bit st) s
                (map (bit_of v) (seq 0 n))) as Hbits.
  { intros v n s. by rewrite for_range_seq, fold_opt_map. }
  unfold len_bits. rewrite Hbits.
  destruct (fold_opt _ st _) as [st1|]; [|done]. cbn [mbind option_bind].
  unfold string_at.
  rewrite (for_range_fold
             (λ st c, for_range 0 (Z.to_nat CHAR_BIT) (λ l st,
                 write_bit w (Z.land (Z.shiftr c (Z.of_nat l)) 1) st) st)
             (string ++ [0]))
    by (rewrite length_app; simpl; lia).
  rewrite drop_0, take_ge by (rewrite length_app; simpl; lia).
  rewrite <- fold_opt_flat_map. apply fold_opt_ext.
  intros s' c. unfold char_bits. apply Hbits.
Qed.

Lemma capacity_floor h :
  32 <= width h * height h * 3 →
  capacity h = (width h * height h * 3 - 32) / 8.
Proof. intros Hroom. unfold capacity. apply Z.quot_div_nonneg; lia. Qed.

Lemma capacity_room h : 1 <= capacity h → 40 <= width h * height h * 3.
Proof.
  unfold capacity. generalize (width h * height h * 3). intros n Hcap.
  div_lia.
Qed.

Lemma allowed_len_capacity h :
  valid_dimensions h → width h * height h * 3 < 2 ^ 32 → 1 <= capacity h →
  allowed_len h = capacity h.
Proof.
  intros [Hw Hh] Hfit Hcap. pose proof (capacity_room h Hcap) as Hroom.
  rewrite capacity_floor by lia.
  unfold allowed_len, uint32, STEG_LEN, CHAR_BIT in *.
  rewrite (Z.mod_small (width h * height h)) by nia.
  rewrite (Z.mod_small (width h * height h * 3)) by nia.
  rewrite Z.mod_small by nia. done.
Qed.

(** The writer succeeds on a message that fits and leaves, in scan
    order, channel units whose parities are the bits of the message. *)
Lemma steganography_write_units rand image string :
  valid_grid image → valid_dimensions (bmp_header image) →
  16 <= bit_per_pixel (bmp_header image) →
  width (bmp_header image) * height (bmp_header image) * 3 < 2 ^ 32 →
  Z.of_nat (length string) + 1 <= capacity (bmp_header image) →
  ∃ grid,
    steganography_write rand image string
    = Some (0, mkImage (bmp_header image) grid (palette image), [])
    ∧ ∀ k bit, message_bits string !! k = Some bit →
               ∃ v, load_unit grid (cursor_of (width (bmp_header image)) k)
                    = Some v
                    ∧ v mod 2 = bit.
Proof.
  intros Hgrid Hdim Hbpp Hfit Hcap.
  pose proof (valid_grid_shape _ Hgrid) as Hs.
  set (h := bmp_header image) in *.
  set (wn := Z.to_nat (width h)) in *. set (hn := Z.to_nat (height h)) in *.
  destruct Hdim as [Hw Hh].
  assert (width h = Z.of_nat wn) as Hwn by lia.
  assert (height h = Z.of_nat hn) as Hhn by lia.
  assert (0 < wn)%nat as Hpos by lia.
  assert (allowed_len h = capacity h) as Hallowed.
  { apply allowed_len_capacity; [done|done|lia]. }
  assert (32 + 8 * (length string + 1) ≤ 3 * wn * hn)%nat as Hroom.
  { pose proof (capacity_room h ltac:(lia)) as Hunits.
    rewrite capacity_floor in Hcap by lia.
    assert (8 * (Z.of_nat (length string) + 1)
            <= width h * height h * 3 - 32)
      by (revert Hcap; generalize (width h * height h * 3); intros;
          div_lia).
    nia. }
  destruct (write_bits_spec (width h) wn hn Hwn Hpos (message_bits string)
              (pixel_data image) 0 Hs)
    as (grid1 & Hwrite & Hs1 & Hset & _).
  { rewrite length_message_bits. lia. }
  { apply message_bits_bool. }
  destruct (fill_random_spec (width h) wn hn Hwn Hpos rand h
              (Z.to_nat (3 * width h * height h)) grid1
              (0 + length (message_bits string)) 0)
    as (st3 & Hfill & _ & Hkeep).
  { done. } { done. } { done. }
  { rewrite length_message_bits. lia. }
  { lia. }
  exists st3.1. split.
  - unfold steganography_write. fold h.
    assert (uint64 (Z.of_nat (length string) + 1)
            = Z.of_nat (length string) + 1) as ->.
    { unfold uint64. apply Z.mod_small.
      pose proof (capacity_room h ltac:(lia)) as Hunits.
      rewrite capacity_floor in Hcap by lia. revert Hcap Hfit.
      generalize (width h * height h * 3). intros. div_lia. }
    rewrite Hallowed.
    replace (Z.of_nat (length string) + 1 >? capacity h) with false by lia.
    rewrite (proj2 (Z.ltb_ge _ _)) by lia.
    replace (Z.to_nat (Z.of_nat (length string) + 1))
      with (length string + 1)%nat by lia.
    pose proof (eq_trans
                  (write_loops_as_bits (width h) string
                     (pixel_data image, (0%nat, 0%nat, 0)))
                  Hwrite) as Hloops.
    destruct (for_range 0 (Z.to_nat STEG_LEN) _ _) as [st1|];
      [|discriminate Hloops].
    cbn [mbind option_bind] in Hloops |- *. rewrite Hloops.
    cbn [mbind option_bind]. rewrite Hfill. done.
  - intros k bit Hk. rewrite Hkeep.
    + destruct (Hset k bit Hk) as (v & Hv & Hpar). by exists v.
    + apply lookup_lt_Some in Hk. lia.
Qed.

Lemma to_char_add a b : to_char (to_char a + b) = to_char (a + b).
Proof. unfold to_char. div_lia. Qed.

Lemma to_char_low_byte c : -128 <= c <= 127 → to_char (c mod 2 ^ 8) = c.
Proof. intros Hc. unfold to_char. change (2 ^ 8) with 256. div_lia. Qed.

Lemma pow2_pos k : 0 < 2 ^ Z.of_nat k.
Proof. apply Z.pow_pos_nonneg; lia. Qed.

Lemma pow2_le_32 k : (k < 32)%nat → 2 * 2 ^ Z.of_nat k <= 2 ^ 32.
Proof.
  intros Hk. replace (2 * 2 ^ Z.of_nat k) with (2 ^ Z.of_nat (Datatypes.S k))
    by (rewrite Nat2Z.inj_succ, Z.pow_succ_r; lia).
  apply Z.pow_le_mono_r; lia.
Qed.

Section Reading.
Variables (w : Z) (wn : nat) (grid : list (list Pixel)) (string : list Z).
Hypothesis Hw : w = Z.of_nat wn.
Hypothesis Hpos : (0 < wn)%nat.
Hypothesis Hstring : c_string string.
Hypothesis Hshort : Z.of_nat (length string) + 1 < 2 ^ 32.
Hypothesis Hunits :
  ∀ k bit, message_bits string !! k = Some bit →
           ∃ v, load_unit grid (cursor_of w k) = Some v ∧ v mod 2 = bit.

(** The first loop of [steganography_read] rebuilds the length. *)
Lemma read_len_spec :
  for_range 0 32 (λ k '(len, cur),
    v ← load_unit grid cur;
    Some (uint64 (len + uint32 (Z.shiftl (uint32 (v mod 2)) (Z.of_nat k))),
          NEXT cur w))
    (0, cursor_of w 0)
  = Some (Z.of_nat (length string) + 1, cursor_of w 32).
Proof.
  set (L := Z.of_nat (length string) + 1) in *.
  pose (Inv := λ (k : nat) (s : Z * cursor),
                 s.2 = cursor_of w k ∧ s.1 = L mod 2 ^ Z.of_nat k).
  match goal with
  | |- for_range 0 32 ?body ?s0 = _ =>
      destruct (for_range_inv Inv body 0 32 s0) as (s & Hrun & Hcur & Hval)
  end.
  - split; [done|]. simpl. by rewrite Z.mod_1_r.
  - intros k [acc cur] Hk [Hcur Hacc]. cbn [fst snd] in Hcur, Hacc. subst cur acc.
    destruct (Hunits k (bit_of L k)) as (v & Hv & Hpar).
    { apply message_bits_len. lia. }
    rewrite Hv. cbn [mbind option_bind].
    eexists. split; [done|]. split; [apply (NEXT_cursor_of w wn Hw Hpos)|].
    cbn [fst]. rewrite Hpar, mod_pow2_succ.
    pose proof (bit_of_bool L k) as Hbit.
    pose proof (pow2_pos k) as Hp. pose proof (pow2_le_32 k ltac:(lia)) as Hp'.
    pose proof (Z.mod_pos_bound L (2 ^ Z.of_nat k) Hp) as Hm.
    rewrite Z.shiftl_mul_pow2 by lia.
    unfold uint64, uint32.
    rewrite (Z.mod_small (bit_of L k)) by lia.
    rewrite (Z.mod_small (bit_of L k * _)) by nia.
    rewrite Z.mod_small by nia. done.
  - rewrite Hrun. destruct s as [acc cur]. cbn [fst snd] in Hcur, Hval.
    subst cur acc. f_equal. f_equal. apply Z.mod_small. subst L. lia.
Qed.

Lemma chars_in_range a c :
  (string ++ [0]) !! a = Some c → -128 <= c <= 127.
Proof.
  intros Ha. apply lookup_app_Some in Ha as [Ha|[_ Ha]].
  - by apply (Forall_lookup_1 _ _ _ _ Hstring Ha).
  - apply list_lookup_singleton_Some in Ha as [_ <-]. lia.
Qed.

(** The inner loop of the second one rebuilds the character [a]. *)
Lemma read_char_spec a c (res : list Z) :
  (string ++ [0]) !! a = Some c → res !! a = Some 0 →
  ∃ res',
    for_range 0 8 (λ l '(res, cur),
      v ← load_unit grid cur;
      c ← res !! a;
      Some (<[a := to_char (c + Z.shiftl (uint8 (v mod 2)) (Z.of_nat l))]>
              res,
            NEXT cur w))
      (res, cursor_of w (32 + 8 * a))
    = Some (res', cursor_of w (32 + 8 * Datatypes.S a))
    ∧ res' = <[a := c]> res.
Proof.
  intros Ha Hres.
  pose (Inv := λ (l : nat) (s : list Z * cursor),
                 s.2 = cursor_of w (32 + 8 * a + l)
                 ∧ s.1 = <[a := to_char (c mod 2 ^ Z.of_nat l)]> res).
  match goal with
  | |- ∃ _, for_range 0 8 ?body ?s0 = _ ∧ _ =>
      destruct (for_range_inv Inv body 0 8 s0) as (s & Hrun & Hcur & Hval)
  end.
  - split; [cbn [snd]; f_equal; lia|]. cbn [fst].
    change (2 ^ Z.of_nat 0) with 1. rewrite Z.mod_1_r.
    change (to_char 0) with 0. by rewrite list_insert_id.
  - intros l [r cur] Hl [Hcur Hr]. cbn [fst snd] in Hcur, Hr. subst cur r.
    destruct (Hunits (32 + 8 * a + l)%nat (bit_of c l)) as (v & Hv & Hpar).
    { apply message_bits_char; [done|lia]. }
    rewrite Hv. cbn [mbind option_bind].
    rewrite list_lookup_insert_eq by by eapply lookup_lt_Some.
    cbn [mbind option_bind].
    eexists. split; [done|]. split.
    + cbn [snd]. rewrite (NEXT_cursor_of w wn Hw Hpos). f_equal. lia.
    + cbn [fst]. rewrite list_insert_insert_eq. f_equal.
      pose proof (bit_of_bool c l) as Hbit.
      rewrite Hpar, to_char_add, mod_pow2_succ.
      rewrite Z.shiftl_mul_pow2 by lia.
      unfold uint8. rewrite (Z.mod_small (bit_of c l)) by lia. done.
  - destruct s as [r cur]. cbn [fst snd] in Hcur, Hval. subst cur r.
    eexists. split.
    + rewrite Hrun. do 3 f_equal. lia.
    + f_equal. apply to_char_low_byte. by eapply chars_in_range.
Qed.

(** The second loop rebuilds the characters and the terminator. *)
Lemma read_chars_spec :
  for_range 0 (length string + 1) (λ k st,
    for_range 0 8 (λ l '(res, cur),
      v ← load_unit grid cur;
      c ← res !! k;
      Some (<[k := to_char (c + Z.shiftl (uint8 (v mod 2)) (Z.of_nat l))]>
              res,
            NEXT cur w))
      st)
    (replicate (length string + 1) 0, cursor_of w 32)
  = Some (string ++ [0], cursor_of w (32 + 8 * (length string + 1))).
Proof.
  set (n := (length string + 1)%nat).
  assert (length (string ++ [0]) = n) as Hn
    by (rewrite length_app; simpl; lia).
  pose (Inv := λ (a : nat) (s : list Z * cursor),
                 s.2 = cursor_of w (32 + 8 * a)
                 ∧ s.1 = take a (string ++ [0]) ++ replicate (n - a) 0).
  match goal with
  | |- for_range 0 n ?body ?s0 = _ =>
      destruct (for_range_inv Inv body 0 n s0) as (s & Hrun & Hcur & Hval)
  end.
  - split; [done|]. simpl. by rewrite Nat.sub_0_r.
  - intros a [res cur] Ha [Hcur Hres]. cbn [fst snd] in Hcur, Hres. subst cur.
    destruct (lookup_lt_is_Some_2 (string ++ [0]) a) as [c Hc]; [lia|].
    assert (length (take a (string ++ [0])) = a) as Htake
      by (rewrite length_take; lia).
    destruct (read_char_spec a c res Hc) as (res' & Hrun & ->).
    { rewrite Hres, lookup_app_r by lia.
      rewrite Htake, Nat.sub_diag. apply lookup_replicate_2. lia. }
    rewrite Hrun. eexists. split; [done|]. split; [done|]. cbn [fst].
    rewrite Hres, (take_S_r _ _ _ Hc).
    replace (n - a)%nat with (Datatypes.S (n - Datatypes.S a)) by lia.
    cbn [replicate]. rewrite <- (Nat.add_0_r a) at 1.
    rewrite <- Htake at 1. rewrite insert_app_r. simpl.
    by rewrite <- app_assoc.
  - rewrite Hrun. destruct s as [res cur]. cbn [fst snd] in Hcur, Hval.
    subst cur res. rewrite take_ge by lia.
    rewrite Nat.sub_diag. simpl. by rewrite app_nil_r.
Qed.
End Reading.

Lemma as_c_string_terminated string :
  c_string string → as_c_string (string ++ [0]) = string.
Proof.
  intros Hs. induction Hs as [|c string [Hc _] _ IH]; [done|].
  simpl. destruct (Z.eqb_spec c 0); [done|]. by rewrite IH.
Qed.

(** The reader gives back the characters and the terminator whose bits
    are the parities of the channel units. *)
Lemma steganography_read_units image string :
  valid_dimensions (bmp_header image) →
  16 <= bit_per_pixel (bmp_header image) →
  c_string string →
  width (bmp_header image) * height (bmp_header image) * 3 < 2 ^ 32 →
  Z.of_nat (length string) + 1 <= capacity (bmp_header image) →
  (∀ k bit, message_bits string !! k = Some bit →
            ∃ v, load_unit (pixel_data image)
                   (cursor_of (width (bmp_header image)) k) = Some v
                 ∧ v mod 2 = bit) →
  steganography_read image = Some (Some (string ++ [0]), []).
Proof.
  intros Hdim Hbpp Hstr Hfit Hcap Hunits.
  set (h := bmp_header image) in *.
  assert (allowed_len h = capacity h) as Hallowed.
  { apply allowed_len_capacity; [done|done|lia]. }
  destruct Hdim as [Hw Hh].
  assert (width h = Z.of_nat (Z.to_nat (width h))) as Hwn by lia.
  assert (0 < Z.to_nat (width h))%nat as Hpos by lia.
  assert (Z.of_nat (length string) + 1 < 2 ^ 32) as Hshort.
  { pose proof (capacity_room h ltac:(lia)) as Hroom.
    rewrite capacity_floor in Hcap by lia. revert Hcap Hfit.
    generalize (width h * height h * 3). intros. div_lia. }
  unfold steganography_read. fold h.
  rewrite (proj2 (Z.ltb_ge _ _)) by lia.
  change (Z.to_nat STEG_LEN) with 32%nat.
  change (Z.to_nat CHAR_BIT) with 8%nat.
  match goal with
  | |- context [for_range 0 32 ?body ?s0] =>
      assert (for_range 0 32 body s0
              = Some (Z.of_nat (length string) + 1, cursor_of (width h) 32))
        as -> by exact (read_len_spec (width h) _ (pixel_data image) string
                          Hwn Hpos Hshort Hunits)
  end.
  cbn [mbind option_bind]. rewrite Hallowed.
  replace (Z.of_nat (length string) + 1 >? capacity h) with false by lia.
  replace (Z.to_nat (Z.of_nat (length string) + 1))
    with (length string + 1)%nat by lia.
  match goal with
  | |- context [for_range 0 (length string + 1) ?body ?s0] =>
      assert (for_range 0 (length string + 1) body s0
              = Some (string ++ [0],
                      cursor_of (width h) (32 + 8 * (length string + 1))))
        as -> by exact (read_chars_spec (width h) _ (pixel_data image)
                          string Hwn Hpos Hstr Hunits)
  end.
  done.
Qed.

(** C4, amended.  On an image with a valid grid, a depth of at least
    16 and [width * height * 3 < 2 ^ 32], for every string whose length
    plus the terminator is at most the capacity
    [(width * height * 3 - 32) / 8], [steganography_write] returns 0 and
    [steganography_read] on the image it leaves returns the characters
    of the string followed by the terminator: the string itself. *)
Theorem steganography_round_trip rand image string :
  valid_grid image → valid_dimensions (bmp_header image) →
  c_string string →
  16 <= bit_per_pixel (bmp_header image) →
  width (bmp_header image) * height (bmp_header image) * 3 < 2 ^ 32 →
  Z.of_nat (length string) + 1 <= capacity (bmp_header image) →
  ∃ image',
    steganography_write rand image string = Some (0, image', [])
    ∧ steganography_read image' = Some (Some (string ++ [0]), [])
    ∧ as_c_string (string ++ [0]) = string.
Proof.
  intros Hgrid Hdim Hstr Hbpp Hfit Hcap.
  destruct (steganography_write_units rand image string)
    as (grid & Hwrite & Hunits); try done.
  eexists. split; [exact Hwrite|]. split.
  - by apply steganography_read_units.
  - by apply as_c_string_terminated.
Qed.

Lemma steganography_round_trip_witness :
  ∃ image',
    steganography_write sample_rand sample_4x4 [97] = Some (0, image', [])
    ∧ steganography_read image' = Some (Some ([97] ++ [0]), [])
    ∧ as_c_string ([97] ++ [0]) = [97].
Proof.
  apply (steganography_round_trip sample_rand sample_4x4 [97]).
  - solve_valid.
  - solve_valid.
  - repeat constructor; lia.
  - simpl. lia.
  - simpl. lia.
  - vm_compute. discriminate.
Defined.

Lemma steganography_write_too_long_result rand image string :
  allowed_len (bmp_header image) < uint64 (Z.of_nat (length string) + 1) →
  steganography_write rand image string
  = Some (1, image,
          [steganography_write_too_long (allowed_len (bmp_header image))]).
Proof.
  intros Hlong. unfold steganography_write.
  by rewrite (proj2 (Z.gtb_lt _ _)) by done.
Qed.

Lemma steganography_write_low_bpp_result rand image string :
  uint64 (Z.of_nat (length string) + 1) <= allowed_len (bmp_header image) →
  bit_per_pixel (bmp_header image) < 16 →
  steganography_write rand image string
  = Some (1, image, [steganography_write_low_bpp]).
Proof.
  intros Hfits Hbpp. unfold steganography_write.
  replace (_ >? _) with false by lia.
  by rewrite (proj2 (Z.ltb_lt _ _)) by done.
Qed.

(** The wrap-around of the 32-bit arithmetic can only lower the number
    of bytes the writer admits. *)
Lemma allowed_len_le_capacity h :
  32 <= width h * height h * 3 → allowed_len h <= capacity h.
Proof.
  intros Hroom. rewrite capacity_floor by done.
  unfold allowed_len, uint32, STEG_LEN, CHAR_BIT.
  rewrite Zmult_mod_idemp_l, Zminus_mod_idemp_l.
  apply Z.div_le_mono; [lia|]. apply Z.mod_le; lia.
Qed.

(** A reader that meets 32 odd bytes decodes the length [2 ^ 32 - 1]
    and gives up. *)
Lemma steganography_read_odd_units image :
  valid_dimensions (bmp_header image) →
  16 <= bit_per_pixel (bmp_header image) →
  (∀ k, (k < 32)%nat →
        ∃ v, load_unit (pixel_data image)
               (cursor_of (width (bmp_header image)) k) = Some v
             ∧ v mod 2 = 1) →
  steganography_read image
  = Some (None, [steganography_read_invalid_length]).
Proof.
  intros [Hw Hh] Hbpp Hodd. set (h := bmp_header image) in *.
  assert (width h = Z.of_nat (Z.to_nat (width h))) as Hwn by lia.
  assert (0 < Z.to_nat (width h))%nat as Hpos by lia.
  unfold steganography_read. fold h.
  rewrite (proj2 (Z.ltb_ge _ _)) by lia.
  change (Z.to_nat STEG_LEN) with 32%nat.
  pose (Inv := λ (k : nat) (s : Z * cursor),
                 s.2 = cursor_of (width h) k ∧ s.1 = 2 ^ Z.of_nat k - 1).
  match goal with
  | |- context [for_range 0 32 ?body ?s0] =>
      destruct (for_range_inv Inv body 0 32 s0) as (s & Hrun & Hcur & Hval)
  end.
  - done.
  - intros k [acc cur] Hk [Hcur Hacc]. cbn [fst snd] in Hcur, Hacc.
    subst cur acc. destruct (Hodd k ltac:(lia)) as (v & Hv & Hpar).
    rewrite Hv. cbn [mbind option_bind].
    eexists. split; [done|].
    split; [apply (NEXT_cursor_of (width h) _ Hwn Hpos)|].
    cbn [fst]. rewrite Hpar, Z.shiftl_mul_pow2 by lia.
    pose proof (pow2_pos k) as Hp. pose proof (pow2_le_32 k ltac:(lia)) as Hp'.
    unfold uint64, uint32. rewrite (Z.mod_small 1) by lia.
    rewrite (Z.mod_small (1 * _)) by nia.
    rewrite Z.mod_small by nia.
    rewrite Nat2Z.inj_succ, Z.pow_succ_r by lia. lia.
  - rewrite Hrun. destruct s as [acc cur]. cbn [fst snd] in Hcur, Hval.
    subst acc. cbn [mbind option_bind].
    assert (allowed_len h < 2 ^ Z.of_nat 32 - 1) as Hsmall.
    { unfold allowed_len, uint32, CHAR_BIT. change (Z.of_nat 32) with 32.
      div_lia. }
    by rewrite (proj2 (Z.gtb_lt _ _)) by done.
Qed.

Lemma get_px_replicate hn wn p i j :
  (i < hn)%nat → (j < wn)%nat →
  get_px (replicate hn (replicate wn p)) i j = Some p.
Proof.
  intros Hi Hj. unfold get_px. rewrite lookup_replicate_2 by done.
  simpl. by rewrite lookup_replicate_2.
Qed.

Lemma huge_image_valid : valid_grid huge_image.
Proof.
  split.
  - apply length_replicate.
  - apply Forall_replicate. apply length_replicate.
Qed.

Lemma huge_image_units k :
  (k < 32)%nat →
  ∃ v, load_unit (pixel_data huge_image)
         (cursor_of (width (bmp_header huge_image)) k) = Some v
       ∧ v mod 2 = 1.
Proof.
  intros Hk.
  destruct (cursor_of_in_grid 44739243 (Z.to_nat 44739243) (Z.to_nat 32)
              ltac:(lia) ltac:(lia) k ltac:(lia))
    as (i & j & ch & Hcur & Hi & Hj & Hch).
  change (width (bmp_header huge_image)) with 44739243. rewrite Hcur.
  exists 1. split; [|done].
  unfold load_unit. change (pixel_data huge_image)
    with (replicate (Z.to_nat 32)
            (replicate (Z.to_nat 44739243) (mkPixel 1 1 1 1))).
  rewrite get_px_replicate by done. cbn [mbind option_bind].
  unfold get_channel.
  destruct (Z.eqb_spec ch 0); [done|]. destruct (Z.eqb_spec ch 1); [done|].
  destruct (Z.eqb_spec ch 2); [done|]. lia.
Qed.

(** The claim C4 as stated fails on an image of 44739243 by 32 pixels
    at 16 bits: its [2 ^ 32 + 32] channel units wrap to 32, the writer
    admits no byte at all and refuses the empty string, although the
    capacity is [2 ^ 29] bytes; the image is left as it was, and the
    reader finds no message in it. *)
Lemma steganography_round_trip_overflow :
  valid_grid huge_image
  ∧ 16 <= bit_per_pixel (bmp_header huge_image)
  ∧ c_string []
  ∧ Z.of_nat (length (@nil Z)) + 1 <= capacity (bmp_header huge_image)
  ∧ steganography_write sample_rand huge_image []
    = Some (1, huge_image, [steganography_write_too_long 0])
  ∧ ¬ round_trip_as_stated sample_rand huge_image [].
Proof.
  assert (steganography_write sample_rand huge_image []
          = Some (1, huge_image, [steganography_write_too_long 0])) as Hwrite.
  { by rewrite steganography_write_too_long_result. }
  split; [apply huge_image_valid|]. split; [done|]. split; [constructor|].
  split; [done|]. split; [done|].
  intros (ret & image' & msgs & buffer & msgs' & Hw & Hr & _).
  rewrite Hwrite in Hw. injection Hw as <- <- <-.
  rewrite steganography_read_odd_units in Hr; [done| |done|].
  - split; done.
  - apply huge_image_units.
Qed.

(** C5, amended.  On an image with a valid grid: a message whose
    length with the terminator is exactly the capacity is written when
    the depth is at least 16 and [width * height * 3 < 2 ^ 32]; one byte
    more is refused as too long, whatever the depth, when the image has
    at least 32 channel units; and a depth below 16 is what the failure
    reports when the message is not too long, because the length is
    tested first. *)
Theorem steganography_write_boundary rand image string :
  valid_grid image → valid_dimensions (bmp_header image) →
  (16 <= bit_per_pixel (bmp_header image) →
   width (bmp_header image) * height (bmp_header image) * 3 < 2 ^ 32 →
   Z.of_nat (length string) + 1 = capacity (bmp_header image) →
   ∃ image', steganography_write rand image string = Some (0, image', []))
  ∧ (32 <= width (bmp_header image) * height (bmp_header image) * 3 →
     Z.of_nat (length string) + 1 = capacity (bmp_header image) + 1 →
     steganography_write rand image string
     = Some (1, image,
             [steganography_write_too_long
                (allowed_len (bmp_header image))]))
  ∧ (bit_per_pixel (bmp_header image) < 16 →
     width (bmp_header image) * height (bmp_header image) * 3 < 2 ^ 32 →
     Z.of_nat (length string) + 1 <= capacity (bmp_header image) →
     steganography_write rand image string
     = Some (1, image, [steganography_write_low_bpp])).
Proof.
  intros Hgrid Hdim. split; [|split].
  - intros Hbpp Hfit Hcap.
    destruct (steganography_write_units rand image string)
      as (grid & Hwrite & _); try done; [lia|].
    eexists. exact Hwrite.
  - intros Hroom Hcap. apply steganography_write_too_long_result.
    pose proof (allowed_len_le_capacity (bmp_header image) Hroom).
    assert (capacity (bmp_header image) < 2 ^ 63) as Hbound.
    { destruct Hdim as [Hw Hh]. rewrite capacity_floor by done.
      assert (width (bmp_header image) * height (bmp_header image)
              < 2 ^ 64) as Hprod by nia.
      revert Hprod.
      generalize (width (bmp_header image) * height (bmp_header image)).
      intros x Hx. div_lia. }
    unfold uint64. rewrite Z.mod_small; lia.
  - intros Hbpp Hfit Hcap. apply steganography_write_low_bpp_result; [|done].
    rewrite allowed_len_capacity by (done || lia).
    unfold uint64. rewrite Z.mod_small; [done|].
    pose proof (capacity_room (bmp_header image) ltac:(lia)) as Hunits.
    rewrite capacity_floor in Hcap by lia. revert Hcap Hfit.
    generalize (width (bmp_header image) * height (bmp_header image) * 3).
    intros. div_lia.
Qed.

Lemma steganography_write_boundary_witness :
  (∃ image', steganography_write sample_rand sample_4x4 [97]
             = Some (0, image', []))
  ∧ steganography_write sample_rand sample_4x4 [97; 98]
    = Some (1, sample_4x4, [steganography_write_too_long 2])
  ∧ steganography_write sample_rand sample_4x4_8bpp [97]
    = Some (1, sample_4x4_8bpp, [steganography_write_low_bpp]).
Proof.
  split; [|split].
  - apply (steganography_write_boundary sample_rand sample_4x4 [97]);
      [solve_valid|solve_valid|simpl; lia|simpl; lia|reflexivity].
  - apply (steganography_write_boundary sample_rand sample_4x4 [97; 98]);
      [solve_valid|solve_valid|simpl; lia|reflexivity].
  - apply (steganography_write_boundary sample_rand sample_4x4_8bpp [97]);
      [solve_valid|solve_valid|simpl; lia|simpl; lia|
       vm_compute; discriminate].
Defined.

(** The claim C5 as stated fails in its third clause on the image of
    sixteen pixels at 8 bits, whose capacity is two bytes, with the
    string "abc": the failure reports the length, not the depth.  Its
    first clause fails on the image of 44739243 by 32 pixels at 16 bits
    with a string of [2 ^ 29 - 1] characters, which is exactly the
    capacity and is refused.  Its second clause fails on the image of
    nine pixels, of capacity [(27 - 32) / 8 = 0]: the unsigned
    subtraction wraps, the empty string passes the test of the length
    and the loop that writes the length leaves the grid after 27 of
    its 32 bits. *)
Lemma steganography_write_not_as_stated :
  valid_grid sample_4x4_8bpp
  ∧ ¬ depth_failure_as_stated sample_rand sample_4x4_8bpp [97; 98; 99]
  ∧ valid_grid huge_image
  ∧ ¬ capacity_success_as_stated sample_rand huge_image
        (replicate (Z.to_nat 536870911) 97)
  ∧ valid_grid sample_3x3
  ∧ capacity (bmp_header sample_3x3) = 0
  ∧ steganography_write sample_rand sample_3x3 [] = None
  ∧ ¬ too_long_as_stated sample_rand sample_3x3 [].
Proof.
  split; [solve_valid|].
  split; [|split; [|split; [|split; [|split; [|split]]]]];
    [| | |solve_valid|reflexivity|reflexivity|
     intros Hclaim; destruct Hclaim as (image' & n & Hrun);
     [reflexivity|vm_compute in Hrun; discriminate]].
  - intros Hclaim. destruct Hclaim as (image' & Hrun); [simpl; lia|].
    vm_compute in Hrun. discriminate.
  - apply huge_image_valid.
  - intros Hclaim. destruct Hclaim as (image' & Hrun).
    + simpl. lia.
    + rewrite length_replicate, Z2Nat.id by lia. done.
    + rewrite steganography_write_too_long_result in Hrun; [done|].
      rewrite length_replicate, Z2Nat.id by lia. done.
Qed.

(** ** Packing at one bit per pixel *)

Lemma testbit_shifted_flag v bit b :
  v = 0 ∨ v = 1 → 0 <= bit → 0 <= b →
  Z.testbit (Z.shiftl v bit) b = (b =? bit) && (v =? 1).
Proof.
  intros Hv Hbit Hb. rewrite Z.shiftl_spec by done.
  destruct Hv as [-> | ->].
  - rewrite Z.bits_0. by rewrite andb_false_r.
  - rewrite andb_true_r. destruct (Z.eqb_spec b bit) as [->|Hne].
    + by rewrite Z.sub_diag.
    + destruct (Z.lt_ge_cases (b - bit) 0).
      * by apply Z.testbit_neg_r.
      * apply Z.bits_above_log2; simpl; lia.
Qed.

Lemma testbit_uint8 a b : 0 <= b < 8 → Z.testbit (uint8 a) b = Z.testbit a b.
Proof. intros Hb. unfold uint8. apply Z.mod_pow2_bits_low. lia. Qed.

Section Row_1.
Variables (grid : list (list Pixel)) (row : list Pixel) (i w : nat).
Hypothesis Hrow : grid !! i = Some row.
Hypothesis Hlen : length row = w.

Lemma pack_byte_1_spec n : ∀ bit j tmp,
  bit = Z.of_nat n - 1 → (n ≤ 8)%nat → (j ≤ w)%nat →
  (∀ b, 0 <= b <= bit → Z.testbit tmp b = false) →
  ∃ tmp',
    pack_byte_1 n grid w i bit j tmp = Some (Nat.min (j + n) w, tmp')
    ∧ (∀ b, bit < b < 8 → Z.testbit tmp' b = Z.testbit tmp b)
    ∧ ∀ k p, (k < n)%nat → row !! (j + k)%nat = Some p →
             Z.testbit tmp' (bit - Z.of_nat k) = negb (px_i p =? 0).
Proof.
  induction n as [|n IH]; intros bit j tmp Hbit Hn Hj Hclear.
  - exists tmp. simpl. rewrite Nat.add_0_r, Nat.min_l by done.
    split; [done|]. split; [done|]. intros k p Hk. lia.
  - cbn [pack_byte_1]. rewrite (proj2 (Z.leb_le 0 bit)) by lia.
    destruct (decide (j < w)%nat) as [Hlt|Hge].
    + rewrite bool_decide_eq_true_2 by done. cbn [andb].
      destruct (lookup_lt_is_Some_2 row j) as [p Hp]; [lia|].
      unfold get_px at 1. rewrite Hrow. cbn [mbind option_bind]. rewrite Hp.
      cbn [mbind option_bind].
      set (v := if px_i p =? 0 then 0 else 1).
      assert (v = 0 ∨ v = 1) as Hv by (subst v; case_match; lia).
      assert (∀ b, 0 <= b < 8 →
                   Z.testbit (uint8 (Z.lor tmp (Z.shiftl v bit))) b
                   = Z.testbit tmp b || ((b =? bit) && (v =? 1))) as Hnew.
      { intros b Hb. rewrite testbit_uint8, Z.lor_spec by done.
        by rewrite testbit_shifted_flag by lia. }
      destruct (IH (bit - 1) (Datatypes.S j)
                  (uint8 (Z.lor tmp (Z.shiftl v bit))))
        as (tmp' & Hrun & Hhigh & Hbits); [lia|lia|lia| |].
      { intros b Hb. rewrite Hnew, Hclear by lia.
        rewrite (proj2 (Z.eqb_neq b bit)) by lia. done. }
      exists tmp'. split.
      { rewrite Hrun. do 2 f_equal. lia. }
      split.
      * intros b Hb. rewrite Hhigh, Hnew by lia.
        rewrite (proj2 (Z.eqb_neq b bit)) by lia. by rewrite orb_false_r.
      * intros [|k] q Hk Hq.
        -- rewrite Nat.add_0_r, Hp in Hq. injection Hq as <-.
           rewrite Z.sub_0_r, Hhigh, Hnew, Hclear, Z.eqb_refl by lia.
           subst v. simpl. by destruct (px_i p =? 0).
        -- replace (bit - Z.of_nat (Datatypes.S k))
             with (bit - 1 - Z.of_nat k) by lia.
           apply Hbits; [lia|].
           by replace (Datatypes.S j + k)%nat
             with (j + Datatypes.S k)%nat by lia.
    + rewrite bool_decide_eq_false_2 by done. rewrite andb_false_r.
      exists tmp. rewrite Nat.min_r by lia.
      split; [f_equal; f_equal; lia|]. split; [done|].
      intros k p Hk Hp. apply lookup_lt_Some in Hp. lia.
Qed.

Lemma pack_while_1_spec fuel : ∀ q st,
  (row_bytes_1 w - q ≤ fuel)%nat →
  (st.1 + (row_bytes_1 w - q) ≤ length st.2)%nat →
  ∃ buffer',
    pack_while_1 fuel grid w i (Nat.min (8 * q) w) st
    = Some ((st.1 + (row_bytes_1 w - q))%nat, buffer')
    ∧ length buffer' = length st.2
    ∧ (∀ m, (m < st.1 ∨ st.1 + (row_bytes_1 w - q) ≤ m)%nat →
            buffer' !! m = st.2 !! m)
    ∧ ∀ j p, (8 * q ≤ j)%nat → row !! j = Some p →
             ∃ byte, buffer' !! (st.1 + (j / 8 - q))%nat = Some byte
                     ∧ Z.testbit byte (7 - Z.of_nat (j mod 8))
                       = negb (px_i p =? 0).
Proof.
  unfold row_bytes_1.
  induction fuel as [|fuel IH]; intros q [buf buffer] Hfuel Hroom;
    cbn [fst snd] in *.
  - assert (w ≤ 8 * q)%nat as Hdone by div_lia.
    exists buffer. cbn [pack_while_1].
    rewrite bool_decide_eq_false_2 by lia.
    replace ((w + 7) / 8 - q)%nat with 0%nat by lia.
    rewrite Nat.add_0_r. split; [done|]. split; [done|]. split; [done|].
    intros j p Hj Hp. apply lookup_lt_Some in Hp. lia.
  - cbn [pack_while_1]. destruct (decide (8 * q < w)%nat) as [Hlt|Hge].
    + rewrite bool_decide_eq_true_2 by lia. rewrite Nat.min_l by lia.
      destruct (pack_byte_1_spec 8 7 (8 * q)%nat 0)
        as (tmp & Hbyte & _ & Hbits); [done|lia|lia| |].
      { intros b _. apply Z.bits_0. }
      rewrite Hbyte. cbn [mbind option_bind].
      assert (q < (w + 7) / 8)%nat as Hq by div_lia.
      unfold emit. cbn [fst snd]. rewrite decide_True by lia.
      cbn [mbind option_bind].
      replace (8 * q + 8)%nat with (8 * Datatypes.S q)%nat by lia.
      destruct (IH (Datatypes.S q) (Datatypes.S buf, <[buf := tmp]> buffer))
        as (buffer' & Hrun & Hl & Hkeep & Hset); cbn [fst snd].
      { lia. }
      { rewrite length_insert. lia. }
      cbn [fst snd] in *. rewrite length_insert in Hl.
      exists buffer'. split; [rewrite Hrun; do 2 f_equal; lia|].
      split; [done|]. split.
      * intros m Hm. rewrite Hkeep by lia.
        apply list_lookup_insert_ne. lia.
      * intros j p Hj Hp. destruct (decide (j < 8 * Datatypes.S q)%nat).
        -- exists tmp. replace (j / 8 - q)%nat with 0%nat by div_lia.
           rewrite Nat.add_0_r, Hkeep by lia.
           rewrite list_lookup_insert_eq by lia. split; [done|].
           replace (7 - Z.of_nat (j mod 8))
             with (7 - Z.of_nat (j - 8 * q)) by div_lia.
           apply Hbits; [lia|].
           by replace (8 * q + (j - 8 * q))%nat with j by lia.
        -- destruct (Hset j p ltac:(lia) Hp) as (byte & Hbyte' & Hbit).
           exists byte. split; [|done].
           replace (buf + (j / 8 - q))%nat
             with (Datatypes.S buf + (j / 8 - Datatypes.S q))%nat
             by div_lia.
           done.
    + rewrite bool_decide_eq_false_2 by lia.
      replace ((w + 7) / 8 - q)%nat with 0%nat by div_lia.
      rewrite Nat.add_0_r. exists buffer.
      split; [done|]. split; [done|]. split; [done|].
      intros j p Hj Hp. apply lookup_lt_Some in Hp. lia.
Qed.
End Row_1.

(** C10.  When [save_bitmap] packs an image of depth 1 whose buffer
    holds its rows, the bit of the pixel in row [i] and column [j] is
    bit [7 - j mod 8] of the byte [j / 8] of row [i], the first pixel of
    a byte being its most significant bit; this bit is 1 exactly when
    the index of the pixel is not zero, so an index such as 2 is
    written as 1. *)
Theorem save_bitmap_one_bit_per_pixel image :
  valid_grid image →
  bit_per_pixel (bmp_header image) = 1 →
  height (bmp_header image) * Z.of_nat (stride_1 (bmp_header image))
  <= image_size (bmp_header image) →
  ∃ buffer,
    save_bitmap_pixels image = Some buffer
    ∧ length buffer = Z.to_nat (image_size (bmp_header image))
    ∧ ∀ i j p, get_px (pixel_data image) i j = Some p →
        ∃ byte,
          buffer !! (i * stride_1 (bmp_header image) + j / 8)%nat = Some byte
          ∧ Z.testbit byte (7 - Z.of_nat (j mod 8)) = negb (px_i p =? 0).
Proof.
  intros Hgrid Hbpp Hsize.
  pose proof (valid_grid_shape _ Hgrid) as Hs.
  set (h := bmp_header image) in *. set (grid := pixel_data image) in *.
  set (wn := Z.to_nat (width h)) in *. set (hn := Z.to_nat (height h)) in *.
  set (size := Z.to_nat (image_size h)).
  set (pad := Z.to_nat (pad_u32 (width h) (bit_per_pixel h))).
  assert (stride_1 h = (row_bytes_1 wn + pad)%nat) as Hstride by done.
  assert (hn * stride_1 h ≤ size)%nat as Hroom by (subst hn size; nia).
  pose (Inv := λ (i : nat) (st : pack_state),
    st.1 = (i * stride_1 h)%nat
    ∧ length st.2 = size
    ∧ ∀ i' j p, (i' < i)%nat → get_px grid i' j = Some p →
        ∃ byte, st.2 !! (i' * stride_1 h + j / 8)%nat = Some byte
                ∧ Z.testbit byte (7 - Z.of_nat (j mod 8))
                  = negb (px_i p =? 0)).
  destruct (for_range_inv Inv
              (λ i st, '(buf, buffer) ← pack_row_1 grid wn i st;
                       Some ((buf + pad)%nat, buffer))
              0 hn (0%nat, replicate size 0))
    as ([buf buffer] & Hrun & _ & Hlen & Hbits).
  - split; [done|]. split; [apply length_replicate|]. intros i' j p Hi'. lia.
  - intros i [buf buffer] Hi (Hbuf & Hlen & Hdone). cbn [fst snd] in *.
    destruct (lookup_lt_is_Some_2 grid i) as [row Hrow]; [destruct Hs; lia|].
    pose proof (grid_shape_row _ _ _ _ _ Hs Hrow) as Hrowlen.
    assert (row_bytes_1 wn ≤ wn)%nat as Hfuel
      by (unfold row_bytes_1; div_lia).
    assert (Datatypes.S i * stride_1 h ≤ hn * stride_1 h)%nat as Hnext
      by (apply Nat.mul_le_mono_r; lia).
    destruct (pack_while_1_spec grid row i wn Hrow Hrowlen wn 0
                (buf, buffer))
      as (buffer' & Hrow_run & Hl & Hkeep & Hset); cbn [fst snd].
    { lia. }
    { lia. }
    cbn [fst snd] in *. rewrite Nat.sub_0_r in *.
    unfold pack_row_1. change (Nat.min (8 * 0) wn) with 0%nat in Hrow_run.
    rewrite Hrow_run. cbn [mbind option_bind].
    eexists. split; [done|]. unfold Inv. cbn [fst snd]. split; [lia|].
    split; [lia|].
    intros i' j p Hi' Hp.
    destruct (get_px_Some_lt _ _ _ _ _ _ Hs Hp) as [_ Hj].
    assert (j / 8 < row_bytes_1 wn)%nat by (unfold row_bytes_1; div_lia).
    destruct (decide (i' = i)) as [->|Hne].
    + unfold get_px in Hp. fold grid in Hp. rewrite Hrow in Hp.
      cbn [mbind option_bind] in Hp.
      destruct (Hset j p ltac:(lia) Hp) as (byte & Hbyte & Hbit).
      exists byte. split; [|done]. rewrite <- Hbuf.
      by rewrite Nat.sub_0_r in Hbyte.
    + destruct (Hdone i' j p ltac:(lia) Hp) as (byte & Hbyte & Hbit).
      exists byte. split; [|done]. rewrite Hkeep; [done|].
      left. assert (Datatypes.S i' * stride_1 h ≤ i * stride_1 h)%nat
        by (apply Nat.mul_le_mono_r; lia).
      lia.
  - exists buffer. cbn [fst snd] in *. split.
    + assert (pack_rows h (pack_row_1 grid) (0%nat, replicate size 0)
              = Some (buf, buffer)) as Hrows by exact Hrun.
      unfold save_bitmap_pixels. fold h grid size.
      destruct (Z.eqb_spec (bit_per_pixel h) 1); [|done].
      rewrite Hrows. done.
    + split; [done|]. intros i j p Hp.
      destruct (get_px_Some_lt _ _ _ _ _ _ Hs Hp) as [Hi _].
      by apply (Hbits i j p).
Qed.

Lemma save_bitmap_one_bit_per_pixel_witness :
  ∃ buffer byte,
    save_bitmap_pixels sample_1bpp = Some buffer
    ∧ length buffer = 8%nat
    ∧ get_px (pixel_data sample_1bpp) 0 2 = Some (index_pixel 2)
    ∧ buffer !! 0%nat = Some byte
    ∧ Z.testbit byte 5 = true.
Proof.
  destruct (save_bitmap_one_bit_per_pixel sample_1bpp)
    as (buffer & Hrun & Hlen & Hbits).
  - solve_valid.
  - reflexivity.
  - vm_compute. discriminate.
  - destruct (Hbits 0%nat 2%nat (index_pixel 2) eq_refl)
      as (byte & Hbyte & Hbit).
    exists buffer, byte. split; [exact Hrun|]. split; [exact Hlen|].
    split; [reflexivity|]. split; [exact Hbyte|exact Hbit].
Defined.

(** The rows of [sample_1bpp] as [save_bitmap] packs them: the indices
    1, 0, 2, 0, 255 give the bits 1, 0, 1, 0, 1. *)
Example save_bitmap_sample_1bpp :
  save_bitmap_pixels sample_1bpp = Some [168; 0; 0; 0; 80; 0; 0; 0].
Proof. reflexivity. Qed.

(** ** Row framing *)

Lemma ceil_div_8 n : 0 <= n → ceil_div n 8 = (n + 7) / 8.
Proof.
  intros Hn. unfold ceil_div. destruct (Z.eqb_spec (n mod 8) 0); div_lia.
Qed.

Lemma row_bytes_u32_exact w d :
  0 <= w * d → w * d + 7 < 2 ^ 32 →
  row_bytes_u32 w d = row_byte_length w d.
Proof.
  intros H0 Hfit. unfold row_bytes_u32, row_byte_length, uint32.
  rewrite (Z.mod_small (w * d)) by lia.
  rewrite Z.mod_small by lia. by rewrite ceil_div_8.
Qed.

Lemma row_bytes_int_exact w d :
  0 <= w * d → w * d + 7 <= INT_MAX →
  row_bytes_int w d = Some (row_byte_length w d).
Proof.
  intros H0 Hfit. unfold row_bytes_int, int_checked, row_byte_length.
  unfold INT_MAX, INT_MIN in *. rewrite (Z.mul_comm d w).
  rewrite (proj2 (Z.leb_le _ (w * d))), (proj2 (Z.leb_le (w * d) _)) by lia.
  cbn [andb mbind option_bind].
  rewrite (proj2 (Z.leb_le _ (w * d + 7))), (proj2 (Z.leb_le (w * d + 7) _))
    by lia.
  cbn [andb mbind option_bind].
  rewrite Z.quot_div_nonneg, ceil_div_8 by lia. done.
Qed.

Lemma padding_range w d : 0 <= padding w d < 4.
Proof. unfold padding. apply Z.mod_pos_bound. lia. Qed.

Lemma max_colors_supported d : supported_depth d → max_colors_of d = 2 ^ d.
Proof. intros [->|[->|[->|[->|[->| ->]]]]]; reflexivity. Qed.

Lemma invalid_bpp_supported d : supported_depth d → invalid_bpp d = false.
Proof. intros [->|[->|[->|[->|[->| ->]]]]]; reflexivity. Qed.

(** C2, amended.  For every width from 1 and every supported depth
    with [width * depth + 7 < 2 ^ 32], the expression of [open_bitmap]
    and [save_bitmap] gives the row length [ceil(width * depth / 8)] and
    the padding [(4 - row_byte_length mod 4) mod 4]; so does the
    expression of [new_image], which sizes the image with them, when
    [width * depth + 7] is within the range of [int].  A width of 3 at
    depth 24 gives 9 and 3, a width of 5 at depth 1 gives 1 and 3. *)
Theorem row_framing w d :
  1 <= w → supported_depth d → w * d + 7 < 2 ^ 32 →
  (row_bytes_u32 w d = row_byte_length w d
   ∧ pad_u32 w d = padding w d)
  ∧ (w * d + 7 <= INT_MAX →
     row_bytes_int w d = Some (row_byte_length w d)
     ∧ pad_int w d = Some (padding w d)
     ∧ ∀ hgt colors, 1 <= hgt → 0 <= colors <= 2 ^ d →
         ∃ image, new_image w hgt d colors = Some (image, [])
                  ∧ image_size (bmp_header image)
                    = uint32 ((row_byte_length w d + padding w d) * hgt))
  ∧ (row_bytes_u32 3 24 = 9 ∧ pad_u32 3 24 = 3
     ∧ row_bytes_u32 3 24 + pad_u32 3 24 = 12
     ∧ row_bytes_u32 5 1 = 1 ∧ pad_u32 5 1 = 3
     ∧ row_bytes_u32 5 1 + pad_u32 5 1 = 4
     ∧ row_bytes_int 3 24 = Some 9 ∧ pad_int 3 24 = Some 3
     ∧ row_bytes_int 5 1 = Some 1 ∧ pad_int 5 1 = Some 3).
Proof.
  intros Hw Hd Hfit.
  assert (1 <= d <= 32) as Hdr
    by (destruct Hd as [->|[->|[->|[->|[->| ->]]]]]; lia).
  assert (0 <= w * d) as H0 by nia.
  pose proof (row_bytes_u32_exact w d H0 Hfit) as Hu.
  assert (0 <= row_byte_length w d) as Hrb.
  { unfold row_byte_length. rewrite ceil_div_8 by done. div_lia. }
  split; [|split; [|repeat split; reflexivity]].
  - split; [done|]. unfold pad_u32. rewrite Hu. unfold padding, uint32.
    rewrite (Z.mod_small (4 - _)) by div_lia. done.
  - intros Hint.
    pose proof (row_bytes_int_exact w d H0 Hint) as Hi.
    assert (pad_int w d = Some (padding w d)) as Hpi.
    { unfold pad_int. rewrite Hi. cbn [mbind option_bind]. unfold padding.
      rewrite (Z.rem_mod_nonneg (row_byte_length w d)) by lia.
      rewrite Z.rem_mod_nonneg by div_lia. done. }
    split; [done|]. split; [done|].
    intros hgt colors Hh Hc. unfold new_image.
    rewrite (proj2 (Z.ltb_ge w 1)), (proj2 (Z.ltb_ge hgt 1)),
      (proj2 (Z.ltb_ge colors 0)) by lia.
    cbn [orb]. rewrite invalid_bpp_supported, max_colors_supported by done.
    replace (colors >? 2 ^ d) with false by lia.
    rewrite Hpi, Hi. cbn [mbind option_bind].
    eexists. split; [done|]. cbn [bmp_header image_size].
    unfold uint32, uint64. div_lia.
Qed.

Lemma row_framing_witness :
  row_bytes_u32 3 24 = row_byte_length 3 24
  ∧ pad_u32 3 24 = padding 3 24
  ∧ row_bytes_int 3 24 = Some (row_byte_length 3 24)
  ∧ pad_int 3 24 = Some (padding 3 24)
  ∧ ∃ image, new_image 3 2 24 0 = Some (image, [])
             ∧ image_size (bmp_header image) = 24.
Proof.
  destruct (row_framing 3 24) as ((Hu & Hp) & Hint & _).
  - lia.
  - unfold supported_depth. lia.
  - lia.
  - destruct Hint as (Hi & Hpi & Hnew); [unfold INT_MAX; lia|].
    repeat (split; [assumption|]).
    apply (Hnew 2 0); lia.
Defined.

(** The claim C2 as stated fails for a width of [2 ^ 29] at depth 8:
    [width * depth] is [2 ^ 32], which the unsigned arithmetic of
    [open_bitmap] and [save_bitmap] wraps to 0 and which the [int] of
    [new_image] cannot hold; the row length of the specification is
    [2 ^ 29] bytes. *)
Lemma row_framing_overflow :
  1 <= 536870912 ∧ supported_depth 8
  ∧ row_bytes_u32 536870912 8 = 0
  ∧ row_bytes_int 536870912 8 = None
  ∧ row_byte_length 536870912 8 = 536870912
  ∧ ¬ row_framing_as_stated 536870912 8.
Proof.
  split; [lia|]. split; [unfold supported_depth; lia|].
  split; [reflexivity|]. split; [reflexivity|]. split; [reflexivity|].
  intros (Hu & _). vm_compute in Hu. discriminate.
Qed.

(** The padding of [open_bitmap] and [save_bitmap] is the one of the
    specification even when the row length wraps: the wrap-around takes
    a multiple of [2 ^ 29] bytes off the row length. *)
Lemma pad_u32_any_width w d : 0 <= w * d → pad_u32 w d = padding w d.
Proof.
  intros H0. unfold pad_u32, row_bytes_u32, padding, row_byte_length, uint32.
  rewrite ceil_div_8 by done. rewrite Zplus_mod_idemp_l.
  generalize (w * d + 7). intros n. change (2 ^ 32) with 4294967296.
  div_lia.
Qed.

(** ** Where the code departs from its own description *)

(** C1, at the failing input.  At 4 bits per pixel the row of indices
    1 and 2 of an image of height 1 is packed as the byte [0x10]: the
    second pixel is guarded by [j + 1 < h->height] and is left out.
    Decoding that byte gives the indices 1 and 0.  The byte the format
    asks for is [0x12], which [open_bitmap] decodes to 1 and 2, and
    which [save_bitmap] does produce for the same row when the image
    has two rows. *)
Theorem pack_4bpp_tests_height :
  save_bitmap_pixels sample_4bpp = Some [16; 0; 0; 0]
  ∧ open_bitmap_pixels (bmp_header sample_4bpp) [16; 0; 0; 0]
      (pixel_data sample_4bpp)
    = Some [[index_pixel 1; index_pixel 0]]
  ∧ open_bitmap_pixels (bmp_header sample_4bpp) [18; 0; 0; 0]
      (pixel_data sample_4bpp)
    = Some (pixel_data sample_4bpp)
  ∧ save_bitmap_pixels sample_4bpp_two_rows
    = Some [18; 0; 0; 0; 52; 0; 0; 0].
Proof. repeat split; reflexivity. Qed.

(** The other depths on samples: the masked words of 16 and 32 bits
    are packed in little-endian order and decoded to the same pixels. *)
Example codec_samples_16_32 :
  save_bitmap_pixels sample_16bpp
  = Some [255; 255; 65; 24; 0; 0; 0; 0; 197; 56; 222; 247; 41; 73; 0; 0]
  ∧ (buffer ← save_bitmap_pixels sample_16bpp;
     open_bitmap_pixels (bmp_header sample_16bpp) buffer
       (replicate 2 (replicate 3 (mkPixel 0 0 0 0))))
    = Some (pixel_data sample_16bpp)
  ∧ save_bitmap_pixels sample_32bpp
    = Some [1; 2; 3; 4; 255; 254; 253; 252; 5; 6; 7; 8; 9; 10; 11; 12]
  ∧ (buffer ← save_bitmap_pixels sample_32bpp;
     open_bitmap_pixels (bmp_header sample_32bpp) buffer
       (replicate 2 (replicate 2 (mkPixel 0 0 0 0))))
    = Some (pixel_data sample_32bpp).
Proof. repeat split; reflexivity. Qed.

(** At 1 bit per pixel [open_bitmap] leaves a byte only after its
    eighth bit: with a width of 5 the second row is read three bytes
    after the first one, in its padding, and not four bytes after. *)
Example open_bitmap_1bpp_second_row :
  save_bitmap_pixels sample_1bpp = Some [168; 0; 0; 0; 80; 0; 0; 0]
  ∧ open_bitmap_pixels (bmp_header sample_1bpp) [168; 0; 0; 0; 80; 0; 0; 0]
      (pixel_data sample_1bpp)
    = Some [[index_pixel 1; index_pixel 0; index_pixel 1; index_pixel 0;
             index_pixel 1];
            [index_pixel 0; index_pixel 0; index_pixel 0; index_pixel 0;
             index_pixel 0]].
Proof. split; reflexivity. Qed.

(** C3, at the failing input.  For R = 100, G = 150, B = 200 the code
    stores Y = 140 in the blue byte, [128 + 0.713 (B - Y)] = 170 in the
    green byte and [128 + 0.564 (R - Y)] = 105 in the red byte: the two
    coefficients are exchanged with respect to the comment above the
    function, which gives Cb = 161 and Cr = 99. *)
Theorem rgb2ycbcr_exchanges_coefficients :
  rgb2ycbcr sample_rgb
  = Some (0, mkImage (bmp_header sample_rgb) [[mkPixel 140 170 105 9]] [])
  ∧ documented_ycbcr (mkPixel 200 150 100 9) = mkPixel 140 161 99 9.
Proof. split; vm_compute; reflexivity. Qed.

(** C7, at the failing input.  [rgb2ycbcr] and then [ycbcr2rgb] turn
    R = 100, G = 150, B = 200 into R = 107, G = 141, B = 214, which is
    7, 9 and 14 away.  With the coefficients of the comment the same
    pixel comes back as R = 99, G = 149, B = 198. *)
Theorem colour_round_trip_drifts :
  (image ← rgb2ycbcr sample_rgb; ycbcr2rgb image.2)
  = Some (0, mkImage (bmp_header sample_rgb) [[mkPixel 214 141 107 9]] [])
  ∧ ycbcr2rgb_value (documented_ycbcr (mkPixel 200 150 100 9))
    = mkPixel 198 149 99 9.
Proof. split; vm_compute; reflexivity. Qed.
